(** * simmy: perceptual target relocation and replay engine

    A shallow embedding of the decision logic of [simmy.py]: the region
    extractor ([_save_multi_snips]), the UI state comparison
    ([_detect_ui_changes]), the matching cascade
    ([_cv2_template_match], [_try_find_click_target]), the geometry
    translator ([_translate_coord]), the click executor
    ([_intelligent_click]) and the replay loop of [replay_script].

    Conventions.
    - Python [int] is [Z]; [//] by a positive constant is [Z.div].
    - Python [float] values are modelled by exact rationals [Q].  The
      operations used here ([int / int], [int * float], [int + float],
      [round]) are exact on binary64 whenever the operands and results
      are integers below 2^53 in magnitude, which is the case for pixel
      coordinates and at every concrete input evaluated below.  Overflow
      of astronomically large integers is outside the model.
    - A call that may raise returns a [result]; [try: ... except
      Exception:] is [try_except].
    - Library calls whose body is image processing or operating-system
      access (screen capture, [cv2], [pytesseract], [pyautogui], the file
      system) are fields of the interfaces [Vision] and [Platform]. *)

From Stdlib Require Import ZArith QArith Qround List String Ascii Bool Lia.
From stdpp Require Import base option list gmap strings pretty.
Import ListNotations.

Local Open Scope Z_scope.

(** ** Outcomes of Python calls *)

(** [Ok a]: the call returned [a].  [Raised]: it raised an [Exception]. *)
Inductive result (A : Type) : Type :=
| Ok (a : A)
| Raised.
Arguments Ok {A} a.
Arguments Raised {A}.

Definition is_ok {A} (r : result A) : bool :=
  match r with Ok _ => true | Raised => false end.

(** Truth value of an [Optional[str]]: [None] and the empty string are
    both false. *)
Definition str_truthy (s : string) : bool :=
  match s with EmptyString => false | String _ _ => true end.

Definition opt_truthy (o : option string) : bool :=
  match o with None => false | Some s => str_truthy s end.

(** ** Images *)

(** A PIL image as far as the engine looks at it: [img.size] and
    [img.tobytes()]. *)
Record Image : Type := {
  img_w : Z;
  img_h : Z;
  img_bytes : list Z;
}.

(** ** Geometry translator *)

Module Geometry.

(** [a / b] on integers: true division, [ZeroDivisionError] on [b = 0]. *)
Definition py_truediv (a b : Z) : result Q :=
  if b =? 0 then Raised else Ok (inject_Z a / inject_Z b)%Q.

(** [int(round(q))]: round to nearest, ties to the even integer. *)
Definition py_round (q : Q) : Z :=
  let f := Qfloor q in
  match Qcompare (q - inject_Z f) (1 # 2) with
  | Lt => f
  | Gt => f + 1
  | Eq => if Z.even f then f else f + 1
  end.

Definition Point : Type := Z * Z.
(** A window rectangle [(x, y, w, h)]. *)
Definition Rect : Type := Z * Z * Z * Z.

Definition _translate_coord (recorded_xy : Point) (rec_win cur_win : Rect)
  : result Point :=
  let '(rx, ry) := recorded_xy in
  let '(r_x, r_y, r_w, r_h) := rec_win in
  let '(c_x, c_y, c_w, c_h) := cur_win in
  let local_x := rx - r_x in
  let local_y := ry - r_y in
  match py_truediv c_w (Z.max 1 r_w) with
  | Raised => Raised
  | Ok sx =>
    match py_truediv c_h (Z.max 1 r_h) with
    | Raised => Raised
    | Ok sy =>
      let nx := py_round (inject_Z c_x + inject_Z local_x * sx)%Q in
      let ny := py_round (inject_Z c_y + inject_Z local_y * sy)%Q in
      Ok (nx, ny)
    end
  end.




End Geometry.

(** ** UI state sampler *)

Module UIState.

Record UIState : Type := {
  timestamp : Q;
  screenshot_hash : option string;
  visible_text : option (list string);
}.

Definition opt_str_eqb (a b : option string) : bool :=
  match a, b with
  | Some x, Some y => String.eqb x y
  | None, None => true
  | _, _ => false
  end.

(** [bool(before_hash and after_hash and before_hash != after_hash)] *)
Definition _detect_ui_changes (before_hash after_hash : option string) : bool :=
  opt_truthy before_hash && opt_truthy after_hash
    && negb (opt_str_eqb before_hash after_hash).

(** [changed] on two fingerprints, as [_validate_effect] calls it. *)
Definition changed (before after : UIState) : bool :=
  _detect_ui_changes (screenshot_hash before) (screenshot_hash after).

Definition digest_width : nat := 16.

(** [hashlib.sha256(img.tobytes()).hexdigest()[:16]], and [None] when
    that raised; [sha256_hexdigest] is the digest in hexadecimal. *)
Definition _img_hash (sha256_hexdigest : list Z -> result string)
    (img : Image) : option string :=
  match sha256_hexdigest (img_bytes img) with
  | Ok md => Some (substring 0 digest_width md)
  | Raised => None
  end.

(** What [_img_hash] returns: [None], or 16 characters of a digest. *)
Definition is_fingerprint_hash (h : option string) : Prop :=
  match h with
  | None => True
  | Some s => String.length s = digest_width
  end.

End UIState.

(** ** Region extractor *)

Module Snips.

Definition SNIP_MICRO : Z * Z := (80, 60).
Definition SNIP_SMALL : Z * Z := (160, 120).
Definition SNIP_MEDIUM : Z * Z := (320, 240).
Definition SNIP_LARGE : Z * Z := (480, 360).
Definition SNIP_CONTEXT : Z * Z := (800, 600).

(** The dict [sizes], in insertion order. *)
Definition sizes : list (string * (Z * Z)) :=
  [ ("micro", SNIP_MICRO); ("small", SNIP_SMALL); ("medium", SNIP_MEDIUM);
    ("large", SNIP_LARGE); ("context", SNIP_CONTEXT) ].

(** A crop box [(left, top, right, bottom)] in full-frame coordinates. *)
Record Box : Type := {
  left : Z;
  top : Z;
  right : Z;
  bottom : Z;
}.

(** The dict [{"left": left, "top": top}] stored in [origins]. *)
Record Origin : Type := {
  origin_left : Z;
  origin_top : Z;
}.

(** [img.crop(box)]: Pillow raises [ValueError] when [right < left] or
    [bottom < top]; otherwise the crop is the region under the box. *)
Definition pil_crop (b : Box) : result Box :=
  if (right b <? left b) || (bottom b <? top b) then Raised else Ok b.

(** The box computed on lines 241-244 for a frame of size [sw] x [sh]. *)
Definition clip_box (sw sh x y w h : Z) : Box :=
  let l := Z.max 0 (x - w / 2) in
  let t := Z.max 0 (y - h / 2) in
  let r := Z.min sw (l + w) in
  let b := Z.min sh (t + h) in
  {| left := l; top := t; right := r; bottom := b |}.

(** The test of line 245. *)
Definition box_empty (b : Box) : bool :=
  (right b <=? left b) || (bottom b <=? top b).

(** The state of the loop: the two returned dicts, and the files that
    [crop.save] wrote, oldest first. *)
Record Snips : Type := {
  results : gmap string string;
  origins : gmap string Origin;
  written : list (string * Box);
}.

Definition no_snips : Snips :=
  {| results := ∅; origins := ∅; written := [] |}.

Section Extract.
(** [_img_hash(crop)] *)
Variable crop_digest : Box -> option string.
(** [int(time.time()*1000)] *)
Variable now_ms : Z.
(** [crop.save(path)] returned ([true]) or raised ([false]). *)
Variable save_ok : string -> Box -> bool.
Variable outdir : string.

(** [_img_hash(crop) or f"nohash_{...}"] *)
Definition crop_name (crop : Box) : string :=
  match crop_digest crop with
  | Some s => if str_truthy s then s else "nohash_" +:+ pretty now_ms
  | None => "nohash_" +:+ pretty now_ms
  end.

(** [outdir / "images" / f"{name}_{ih}.png"] *)
Definition snip_path (name ih : string) : string :=
  outdir +:+ "/images/" +:+ name +:+ "_" +:+ ih +:+ ".png".

(** The body of the loop of lines 240-255, with [continue] returning
    the state unchanged. *)
Definition snip_step (sw sh x y : Z) (acc : Snips)
    (entry : string * (Z * Z)) : result Snips :=
  let '(name, (w, h)) := entry in
  let box := clip_box sw sh x y w h in
  if box_empty box then Ok acc
  else
    match pil_crop box with
    | Raised => Raised
    | Ok crop =>
      let ih := crop_name crop in
      let path := snip_path name ih in
      if save_ok path crop then
        Ok {| results := <["img_" +:+ name := path]> (results acc);
              origins := <["img_" +:+ name :=
                             {| origin_left := left box;
                                origin_top := top box |}]> (origins acc);
              written := written acc ++ [(path, crop)] |}
      else Ok acc
    end.

Fixpoint snip_loop (sw sh x y : Z) (todo : list (string * (Z * Z)))
    (acc : Snips) : result Snips :=
  match todo with
  | [] => Ok acc
  | entry :: rest =>
    match snip_step sw sh x y acc entry with
    | Raised => Raised
    | Ok acc' => snip_loop sw sh x y rest acc'
    end
  end.

(** [screenshot] is what [_safe_screenshot()] returned. *)
Definition _save_multi_snips (screenshot : option Image) (x y : Z)
  : result Snips :=
  match screenshot with
  | None => Ok no_snips
  | Some img => snip_loop (img_w img) (img_h img) x y sizes no_snips
  end.
End Extract.

(** A crop lies inside a frame of size [sw] x [sh] and is not empty. *)
Definition box_within (sw sh : Z) (b : Box) : Prop :=
  0 <= left b /\ left b < right b /\ right b <= sw /\
  0 <= top b /\ top b < bottom b /\ bottom b <= sh.

End Snips.

(** ** Recorded events *)

(** One entry of [script.json]'s ["events"] list.  [ev_str] holds the
    string-valued keys of the JSON object ([action_type], [img_micro] ...
    [img_context], [ocr_text]); a key that is missing or [null] has no
    entry, which is what [event.get(key)] cannot tell apart either. *)
Record Event : Type := {
  ev_str : gmap string string;
  ev_timestamp : Q;
  ev_x : Z;
  ev_y : Z;
  ev_key : string;   (* event["data"]["key"], default empty *)
  ev_dy : Z;         (* event["data"]["dy"], default 0 *)
}.

(** ** Matching cascade *)

Module Cascade.

Definition TEMPLATE_CONF_HIGH : Q := 0.85.
Definition TEMPLATE_CONF_DEFAULT : Q := 0.78.
Definition TEMPLATE_CONF_RELAXED : Q := 0.62.
Definition TEMPLATE_CONF_VERY_RELAXED : Q := 0.45.

Definition Point : Type := Z * Z.
(** [(cx, cy, confidence)] *)
Definition Hit : Type := Z * Z * Q.

Definition hit_point (h : Hit) : Point := let '(x, y, _) := h in (x, y).

(** One row of [pytesseract.image_to_data]. *)
Record OcrRow : Type := {
  row_text : string;
  row_left : Z;
  row_top : Z;
  row_width : Z;
  row_height : Z;
}.

(** The optional back ends and the file system, as the cascade sees
    them during one call.  Reading the same file twice gives the same
    image. *)
Record Vision : Type := {
  CV2_AVAILABLE : bool;
  OCR_AVAILABLE : bool;
  (** [Path(p).exists()] *)
  path_exists : string -> bool;
  (** [Path(p).name] *)
  path_name : string -> string;
  (** [cv2.imread(p, IMREAD_COLOR)]: [None] for a missing or unreadable
      file. *)
  cv2_imread : string -> option Image;
  (** [cv2.matchTemplate(screenshot, template, TM_CCOEFF_NORMED)] then
      [cv2.minMaxLoc]: [(max_val, max_loc)], or [Raised] (for instance a
      template larger than the frame). *)
  cv2_match_peak : Image -> Image -> result (Q * (Z * Z));
  (** [Image.open(p).convert("RGB")]: raises for a missing or unreadable
      file. *)
  pil_open : string -> result Image;
  (** The ORB detection, ratio test and centroid of [_orb_match], lines
      533-553, on an opened template and the frame; [None] when it
      raised or found too few good matches. *)
  orb_core : Image -> Image -> option Hit;
  (** [pytesseract.image_to_data(screenshot, output_type=DICT)] *)
  ocr_data : Image -> result (list OcrRow);
}.

(** What the cascade tried, oldest first. *)
Inductive Attempt : Type :=
| TryTemplate (attr path : string) (conf : Q)
| TryOrb (attr path : string)
| TryOcr (text : string).

(** A search result with the attempts made to get it. *)
Definition Search : Type := option Point * list Attempt.

Definition miss : Search := (None, []).

(** Run [second] only if [first] found nothing. *)
Definition or_else (first second : Search) : Search :=
  match fst first with
  | Some _ => first
  | None => (fst second, snd first ++ snd second)
  end.

Definition attempt (a : Attempt) (r : option Hit) : Search :=
  (option_map hit_point r, [a]).

Definition img_attrs : list string :=
  ["img_small"; "img_medium"; "img_large"; "img_micro"; "img_context"].

Definition confs : list Q :=
  [TEMPLATE_CONF_HIGH; TEMPLATE_CONF_DEFAULT; TEMPLATE_CONF_RELAXED;
   TEMPLATE_CONF_VERY_RELAXED].

(** [max_val >= confidence] *)
Definition score_ge (max_val confidence : Q) : bool :=
  Qle_bool confidence max_val.

Section WithVision.
Variable V : Vision.

Definition _cv2_template_match (template_path : string)
    (screenshot : Image) (confidence : Q) : option Hit :=
  if negb (CV2_AVAILABLE V) then None
  else
    match cv2_imread V template_path with
    | None => None
    | Some template =>
      match cv2_match_peak V screenshot template with
      | Raised => None
      | Ok (max_val, max_loc) =>
        if score_ge max_val confidence then
          let h := img_h template in
          let w := img_w template in
          let cx := fst max_loc + w / 2 in
          let cy := snd max_loc + h / 2 in
          Some (cx, cy, max_val)
        else None
      end
    end.

(** What lines 507-512 compute before the threshold is looked at: the
    peak score and the centre of the best position, or nothing. *)
Definition template_peak (template_path : string) (screenshot : Image)
  : option (Q * Point) :=
  if negb (CV2_AVAILABLE V) then None
  else
    match cv2_imread V template_path with
    | None => None
    | Some template =>
      match cv2_match_peak V screenshot template with
      | Raised => None
      | Ok (max_val, max_loc) =>
        Some (max_val,
              (fst max_loc + img_w template / 2,
               snd max_loc + img_h template / 2))
      end
    end.

Definition _orb_match (template_path : string) (screenshot : Image)
  : option Hit :=
  if negb (CV2_AVAILABLE V) then None
  else
    match pil_open V template_path with
    | Raised => None
    | Ok template => orb_core V template screenshot
    end.

(** [target_text in txt] *)
Definition str_contains (target_text txt : string) : bool :=
  match String.index 0 target_text txt with
  | Some _ => true
  | None => false
  end.

(** The loop of lines 562-568. *)
Fixpoint ocr_scan (target_text : string) (rows : list OcrRow)
  : option Hit :=
  match rows with
  | [] => None
  | r :: rest =>
    if negb (str_truthy (row_text r)) then ocr_scan target_text rest
    else if str_contains target_text (row_text r) then
      Some (row_left r + row_width r / 2,
            row_top r + row_height r / 2,
            if String.eqb (row_text r) target_text then 0.7%Q else 0.6%Q)
    else ocr_scan target_text rest
  end.

Definition _ocr_match (target_text : string) (screenshot : Image)
  : option Hit :=
  if negb (OCR_AVAILABLE V) || negb (str_truthy target_text) then None
  else
    match ocr_data V screenshot with
    | Raised => None
    | Ok rows => ocr_scan target_text rows
    end.

(** Lines 583-590: the stored path, else the same file name under
    [script_dir/images], else nothing ([continue]). *)
Definition resolve_candidate (script_dir pth : string) : option string :=
  if path_exists V pth then Some pth
  else
    let candidate2 := script_dir +:+ "/images/" +:+ path_name V pth in
    if path_exists V candidate2 then Some candidate2 else None.

(** Lines 592-595: [for c in confs: hit = ...; if hit: return]. *)
Fixpoint template_loop (attr candidate : string) (screenshot : Image)
    (cs : list Q) : Search :=
  match cs with
  | [] => miss
  | c :: rest =>
    or_else
      (attempt (TryTemplate attr candidate c)
               (_cv2_template_match candidate screenshot c))
      (template_loop attr candidate screenshot rest)
  end.

(** One iteration of the loop over [img_attrs], lines 580-599. *)
Definition try_attr (event : Event) (script_dir : string)
    (screenshot : Image) (attr : string) : Search :=
  match ev_str event !! attr with
  | None => miss
  | Some pth =>
    if negb (str_truthy pth) then miss
    else
      match resolve_candidate script_dir pth with
      | None => miss
      | Some candidate =>
        or_else (template_loop attr candidate screenshot confs)
                (attempt (TryOrb attr candidate)
                         (_orb_match candidate screenshot))
      end
  end.

Fixpoint attr_loop (event : Event) (script_dir : string)
    (screenshot : Image) (attrs : list string) : Search :=
  match attrs with
  | [] => miss
  | attr :: rest =>
    or_else (try_attr event script_dir screenshot attr)
            (attr_loop event script_dir screenshot rest)
  end.

(** Lines 601-605. *)
Definition try_text (event : Event) (screenshot : Image) : Search :=
  let tt := default EmptyString (ev_str event !! "ocr_text") in
  if str_truthy tt then attempt (TryOcr tt) (_ocr_match tt screenshot)
  else miss.

(** [screenshot] is what [_safe_screenshot()] returned on line 573. *)
Definition _try_find_click_target (screenshot : option Image)
    (event : Event) (script_dir : string) : Search :=
  match screenshot with
  | None => miss
  | Some shot =>
    or_else (attr_loop event script_dir shot img_attrs)
            (try_text event shot)
  end.

(** *** The cascade in the order the specification words it

    Raster matching against every attribute, then feature matching
    against every attribute, then text. *)

Definition spec_raster_attr (event : Event) (script_dir : string)
    (screenshot : Image) (attr : string) : Search :=
  match ev_str event !! attr with
  | None => miss
  | Some pth =>
    if negb (str_truthy pth) then miss
    else
      match resolve_candidate script_dir pth with
      | None => miss
      | Some candidate => template_loop attr candidate screenshot confs
      end
  end.

Definition spec_feature_attr (event : Event) (script_dir : string)
    (screenshot : Image) (attr : string) : Search :=
  match ev_str event !! attr with
  | None => miss
  | Some pth =>
    if negb (str_truthy pth) then miss
    else
      match resolve_candidate script_dir pth with
      | None => miss
      | Some candidate =>
        attempt (TryOrb attr candidate) (_orb_match candidate screenshot)
      end
  end.

Fixpoint spec_pass (f : string -> Search) (attrs : list string) : Search :=
  match attrs with
  | [] => miss
  | attr :: rest => or_else (f attr) (spec_pass f rest)
  end.

Definition spec_locate (screenshot : option Image) (event : Event)
    (script_dir : string) : Search :=
  match screenshot with
  | None => miss
  | Some shot =>
    or_else (spec_pass (spec_raster_attr event script_dir shot) img_attrs)
      (or_else
         (spec_pass (spec_feature_attr event script_dir shot) img_attrs)
         (try_text event shot))
  end.

(** The candidate file the cascade uses for [attr], if any. *)
Definition usable (event : Event) (script_dir attr : string)
  : option string :=
  match ev_str event !! attr with
  | None => None
  | Some pth =>
    if negb (str_truthy pth) then None
    else resolve_candidate script_dir pth
  end.

(** The attempts the code makes for one usable attribute when none of
    them hits. *)
Definition attr_schedule (attr candidate : string) : list Attempt :=
  map (TryTemplate attr candidate) confs ++ [TryOrb attr candidate].

(** Every attempt of a full, unsuccessful run, in order. *)
Definition schedule (event : Event) (script_dir : string) : list Attempt :=
  flat_map
    (fun attr =>
       match usable event script_dir attr with
       | None => []
       | Some candidate => attr_schedule attr candidate
       end) img_attrs
  ++ (let tt := default EmptyString (ev_str event !! "ocr_text") in
      if str_truthy tt then [TryOcr tt] else []).

(** The outcome of one attempt, looked at on its own. *)
Definition run_attempt (screenshot : Image) (a : Attempt) : option Point :=
  match a with
  | TryTemplate _ p c =>
    option_map hit_point (_cv2_template_match p screenshot c)
  | TryOrb _ p => option_map hit_point (_orb_match p screenshot)
  | TryOcr t => option_map hit_point (_ocr_match t screenshot)
  end.

(** Go through a list of attempts until the first one that hits. *)
Fixpoint first_hit (screenshot : Image) (todo : list Attempt) : Search :=
  match todo with
  | [] => miss
  | a :: rest =>
    match run_attempt screenshot a with
    | Some p => (Some p, [a])
    | None =>
      let '(r, tr) := first_hit screenshot rest in (r, a :: tr)
    end
  end.


End WithVision.




End Cascade.

(** ** The platform: screen, pointer, keyboard, clock, abort flag *)

(** The calls into [pyautogui], [time] and [abort_event], on a world [W].
    Every call may change the world, and with it the abort flag, which the
    hotkey listener thread sets while the replay thread is inside a call.
    A call that raises may have changed the world too. *)
Record Platform (W : Type) : Type := {
  (** [abort_event.is_set()] *)
  abort_is_set : W -> bool;
  (** [time.sleep(seconds)] *)
  time_sleep : Q -> W -> W;
  (** [_safe_screenshot()] *)
  safe_screenshot : W -> option Image * W;
  (** [pyautogui.moveTo(x, y, duration=0.02)] *)
  gui_moveTo : Z -> Z -> W -> result unit * W;
  (** [pyautogui.click(x=x, y=y)] *)
  gui_click : Z -> Z -> W -> result unit * W;
  (** [pyautogui.scroll(amount, x=x, y=y)] *)
  gui_scroll : Z -> Z -> Z -> W -> result unit * W;
  (** [pyautogui.keyDown(k)], [pyautogui.keyUp(k)] *)
  gui_keyDown : string -> W -> result unit * W;
  gui_keyUp : string -> W -> result unit * W;
}.
Arguments abort_is_set {W} _ _.
Arguments time_sleep {W} _ _ _.
Arguments safe_screenshot {W} _ _.
Arguments gui_moveTo {W} _ _ _ _.
Arguments gui_click {W} _ _ _ _.
Arguments gui_scroll {W} _ _ _ _ _.
Arguments gui_keyDown {W} _ _ _.
Arguments gui_keyUp {W} _ _ _.

(** Computations on the world that return or raise. *)
Definition M (W A : Type) : Type := W -> result A * W.

Definition ret {W A} (a : A) : M W A := fun w => (Ok a, w).

Definition bind {W A B} (m : M W A) (k : A -> M W B) : M W B :=
  fun w =>
    match m w with
    | (Ok a, w') => k a w'
    | (Raised, w') => (Raised, w')
    end.

(** [try: body  except Exception: handler] *)
Definition try_except {W A} (body handler : M W A) : M W A :=
  fun w =>
    match body w with
    | (Ok a, w') => (Ok a, w')
    | (Raised, w') => handler w'
    end.

Definition sleep {W} (P : Platform W) (seconds : Q) : M W unit :=
  fun w => (Ok tt, time_sleep P seconds w).

Notation "x <- m ;; k" := (bind m (fun x => k))
  (at level 100, m at next level, right associativity).
Notation "m ;;; k" := (bind m (fun _ => k))
  (at level 100, right associativity).

(** *** Observing a platform

    [logged P] behaves as [P] and appends every call to a log, with the
    value of the abort flag when the call started and whether it
    returned. *)

Inductive Action : Type :=
| ASleep (seconds : Q)
| AScreenshot
| AMoveTo (x y : Z)
| AClick (x y : Z)
| AScroll (amount x y : Z)
| AKeyDown (k : string)
| AKeyUp (k : string).

Record LogEntry : Type := {
  le_action : Action;
  le_aborted : bool;
  le_ok : bool;
}.

Definition log_call {W A} (P : Platform W) (a : Action)
    (call : W -> result A * W) : W * list LogEntry -> result A * (W * list LogEntry) :=
  fun '(w, log) =>
    let '(r, w') := call w in
    (r, (w', log ++ [{| le_action := a; le_aborted := abort_is_set P w;
                        le_ok := is_ok r |}])).

Definition logged {W} (P : Platform W) : Platform (W * list LogEntry) :=
  {| abort_is_set := fun s => abort_is_set P (fst s);
     time_sleep := fun q s =>
       snd (log_call P (ASleep q) (fun w => (Ok tt, time_sleep P q w)) s);
     safe_screenshot := fun s =>
       let '(w, log) := s in
       let '(img, w') := safe_screenshot P w in
       (img, (w', log ++ [{| le_action := AScreenshot;
                             le_aborted := abort_is_set P w;
                             le_ok := true |}]));
     gui_moveTo := fun x y => log_call P (AMoveTo x y) (gui_moveTo P x y);
     gui_click := fun x y => log_call P (AClick x y) (gui_click P x y);
     gui_scroll := fun a x y => log_call P (AScroll a x y) (gui_scroll P a x y);
     gui_keyDown := fun k => log_call P (AKeyDown k) (gui_keyDown P k);
     gui_keyUp := fun k => log_call P (AKeyUp k) (gui_keyUp P k);
  |}.

(** ** Action executor *)

Module Executor.

Definition Point : Type := Z * Z.

(** [[(dx, dy) for dx in (-r, 0, r) for dy in (-r, 0, r)]] *)
Definition grid (r : Z) : list (Z * Z) :=
  dx ← [- r; 0; r]; dy ← [- r; 0; r]; [(dx, dy)].

(** Line 629. *)
Definition steps : list (Z * Z) := grid 8.

Definition offset (x y : Z) (d : Z * Z) : Point := (x + fst d, y + snd d).

Section WithPlatform.
Context {W : Type}.
Variable P : Platform W.

(** The three calls inside each [try] block. *)
Definition click_at (p : Point) : M W unit :=
  gui_moveTo P (fst p) (snd p) ;;;
  gui_click P (fst p) (snd p) ;;;
  sleep P 0.05.

(** [try: ...; return True  except Exception: pass/continue]:
    [true] when the block returned. *)
Definition try_click (p : Point) : M W bool :=
  try_except (click_at p ;;; ret true) (ret false).

(** A loop over points that returns [True] at the first block that
    did not raise; [false] when the loop ran out. *)
Fixpoint click_first (pts : list Point) : M W bool :=
  match pts with
  | [] => ret false
  | p :: rest =>
    ok <- try_click p ;;
    if ok : bool then ret true else click_first rest
  end.

Definition _intelligent_click (x y max_radius : Z) : M W bool :=
  ok <- try_click (x, y) ;;
  if ok : bool then ret true
  else
    ok <- click_first (map (offset x y) steps) ;;
    if ok : bool then ret true
    else
      ok <- click_first
              (r ← [12; 18; max_radius]; map (offset x y) (grid r)) ;;
      if ok : bool then ret true else ret false.
End WithPlatform.

(** The points at which the log shows a pointer move, oldest first:
    every click attempt starts with one. *)
Definition attempts (log : list LogEntry) : list Point :=
  omap (fun e => match le_action e with
                 | AMoveTo x y => Some (x, y)
                 | _ => None
                 end) log.

(** The points at which the log shows a click that returned. *)
Definition clicked (log : list LogEntry) : list Point :=
  omap (fun e => match le_action e with
                 | AClick x y => if le_ok e then Some (x, y) else None
                 | _ => None
                 end) log.

(** The [try] block at [p], started in world [w], returns. *)
Definition click_ok {W} (P : Platform W) (p : Point) (w : W) : bool :=
  is_ok (fst (click_at P p w)).

(** A log of attempts on the points [pts], taken in order up to the
    first success: with outcome [true] the last attempt is the only
    click that returned; with outcome [false] every point was tried and
    no click returned. *)
Definition stops_at_first_success (pts : list Point) (outcome : bool)
    (log : list LogEntry) : Prop :=
  if outcome then
    exists before p after,
      pts = before ++ p :: after
      /\ attempts log = before ++ [p]
      /\ clicked log = [p]
  else attempts log = pts /\ clicked log = [].

(** Every point the code can try, in order. *)
Definition click_schedule (x y max_radius : Z) : list Point :=
  (x, y) :: map (offset x y) (grid 8)
  ++ map (offset x y) (grid 12)
  ++ map (offset x y) (grid 18)
  ++ map (offset x y) (grid max_radius).

(** *** The retry points as the specification words them

    Eight offsets around the centre on the 8 px grid, the centre left
    out. *)
Definition spec_ring8 : list (Z * Z) :=
  filter (fun d => d <> (0, 0)) (grid 8).

Definition spec_click_schedule (x y max_radius : Z) : list Point :=
  (x, y) :: map (offset x y) spec_ring8
  ++ map (offset x y) (grid 12)
  ++ map (offset x y) (grid 18)
  ++ map (offset x y) (grid max_radius).

End Executor.

(** ** Concrete events, back ends and platforms

    Small instances of the interfaces, on which the definitions above
    are evaluated. *)

Module Demo.

Definition frame : Image :=
  {| img_w := 1000; img_h := 800; img_bytes := [] |}.
Definition small_tpl : Image :=
  {| img_w := 160; img_h := 120; img_bytes := [1] |}.
Definition medium_tpl : Image :=
  {| img_w := 320; img_h := 240; img_bytes := [2] |}.

Definition click_event (t : Q) (x y : Z) (strs : gmap string string) : Event :=
  {| ev_str := <["action_type" := "mouse_click"]> strs;
     ev_timestamp := t; ev_x := x; ev_y := y;
     ev_key := EmptyString; ev_dy := 0 |}.

(** A click stored with a small and a medium region. *)
Definition two_regions : Event :=
  click_event 1 100 100
    (<["img_small" := "small.png"]> (<["img_medium" := "medium.png"]> ∅)).

(** Both files are present.  The small region correlates badly with the
    frame (peak 0.30) but has enough ORB matches; the medium region
    correlates well (peak 0.90 at (40, 60)). *)
Definition vision : Cascade.Vision :=
  {| Cascade.CV2_AVAILABLE := true;
     Cascade.OCR_AVAILABLE := false;
     Cascade.path_exists := fun _ => true;
     Cascade.path_name := fun p => p;
     Cascade.cv2_imread := fun p =>
       if String.eqb p "small.png" then Some small_tpl
       else if String.eqb p "medium.png" then Some medium_tpl
       else None;
     Cascade.cv2_match_peak := fun _ tpl =>
       if img_w tpl =? 160 then Ok (0.30%Q, (5, 5))
       else Ok (0.90%Q, (40, 60));
     Cascade.pil_open := fun p =>
       if String.eqb p "small.png" then Ok small_tpl
       else if String.eqb p "medium.png" then Ok medium_tpl
       else Raised;
     Cascade.orb_core := fun tpl _ =>
       if img_w tpl =? 160 then Some (11, 22, 1%Q) else None;
     Cascade.ocr_data := fun _ => Raised;
  |}.


(** No optional back end installed. *)
Definition no_vision : Cascade.Vision :=
  {| Cascade.CV2_AVAILABLE := false;
     Cascade.OCR_AVAILABLE := false;
     Cascade.path_exists := fun _ => false;
     Cascade.path_name := fun p => p;
     Cascade.cv2_imread := fun _ => None;
     Cascade.cv2_match_peak := fun _ _ => Raised;
     Cascade.pil_open := fun _ => Raised;
     Cascade.orb_core := fun _ _ => None;
     Cascade.ocr_data := fun _ => Raised;
  |}.

(** A platform without state on which a pointer call succeeds exactly
    at the points [ok] accepts: [moveTo] raises elsewhere. *)
Definition pointer_platform (ok : Z * Z -> bool) : Platform unit :=
  {| abort_is_set := fun _ => false;
     time_sleep := fun _ w => w;
     safe_screenshot := fun w => (None, w);
     gui_moveTo := fun x y w => (if ok (x, y) then Ok tt else Raised, w);
     gui_click := fun _ _ w => (Ok tt, w);
     gui_scroll := fun _ _ _ w => (Ok tt, w);
     gui_keyDown := fun _ w => (Ok tt, w);
     gui_keyUp := fun _ w => (Ok tt, w);
  |}.

(** A world of two flags: the abort flag, and whether the operator
    presses the abort hotkey during the next [time.sleep].  Every
    pointer and keyboard call succeeds. *)
Record HotkeyWorld : Type := {
  flag : bool;
  hotkey_during_next_sleep : bool;
}.

Definition hotkey_platform : Platform HotkeyWorld :=
  {| abort_is_set := flag;
     time_sleep := fun _ w =>
       {| flag := flag w || hotkey_during_next_sleep w;
          hotkey_during_next_sleep := false |};
     safe_screenshot := fun w => (None, w);
     gui_moveTo := fun _ _ w => (Ok tt, w);
     gui_click := fun _ _ w => (Ok tt, w);
     gui_scroll := fun _ _ _ w => (Ok tt, w);
     gui_keyDown := fun _ w => (Ok tt, w);
     gui_keyUp := fun _ w => (Ok tt, w);
  |}.

Definition screen : Geometry.Rect := (0, 0, 1000, 1000).
Definition window : Geometry.Rect := (50, 50, 420, 860).

End Demo.

(** ** Replay loop *)

Module Replay.

Definition SCROLL_MULTIPLIER : Z := 120.
Definition POST_SCROLL_WAIT : Q := 0.12.
(** The default of [_intelligent_click]'s [max_radius]. *)
Definition DEFAULT_MAX_RADIUS : Z := 24.

(** [len(k) == 1 and k.isprintable()], on one-byte characters. *)
Definition single_printable (k : string) : bool :=
  match k with
  | String a EmptyString =>
    let n := nat_of_ascii a in Nat.leb 32 n && Nat.ltb n 127
  | _ => false
  end.

Fixpoint drop_chars (n : nat) (s : string) : string :=
  match n, s with
  | O, _ => s
  | S n', String _ t => drop_chars n' t
  | S _, EmptyString => EmptyString
  end.

(** [s.replace(pat, "")] for a non-empty [pat]; [fuel] bounds the
    number of steps and [String.length s] is enough. *)
Fixpoint remove_all (fuel : nat) (pat s : string) : string :=
  match fuel with
  | O => s
  | S fuel' =>
    match s with
    | EmptyString => EmptyString
    | String a t =>
      if String.prefix pat s
      then remove_all fuel' pat (drop_chars (String.length pat) s)
      else String a (remove_all fuel' pat t)
    end
  end.

(** The dict of lines 667-680, in source order. *)
Definition key_names : list (string * string) :=
  [ ("Key.enter", "enter"); ("Key.tab", "tab"); ("Key.space", "space");
    ("Key.backspace", "backspace"); ("Key.shift", "shift");
    ("Key.ctrl", "ctrl"); ("Key.alt", "alt"); ("Key.esc", "esc");
    ("Key.up", "up"); ("Key.down", "down"); ("Key.left", "left");
    ("Key.right", "right") ].

Fixpoint assoc (k : string) (l : list (string * string)) : option string :=
  match l with
  | [] => None
  | (k', v) :: rest => if String.eqb k k' then Some v else assoc k rest
  end.

(** [{...}.get(k, k.replace("Key.", ""))] *)
Definition mapped_key (k : string) : string :=
  match assoc k key_names with
  | Some v => v
  | None => remove_all (String.length k) "Key." k
  end.

Definition etype_is (event : Event) (name : string) : bool :=
  bool_decide (ev_str event !! "action_type" = Some name).

(** The loop's variables. *)
Record Locals : Type := {
  success : Z;
  fail : Z;
  last_ts : Q;
}.

(** How one iteration ended when nothing was raised. *)
Inductive Outcome : Type :=
| Succeeded        (* success += 1 *)
| Failed           (* fail += 1 *)
| Ignored.         (* neither, for instance a pointer move *)

Section WithPlatform.
Context {W : Type}.
Variable P : Platform W.
Variable V : Cascade.Vision.
Variable script_dir : string.
(** [rec_win] of line 744 and [win_rect] of line 715. *)
Variables rec_win win_rect : Geometry.Rect.

Definition _perform_scroll_at (x y dy : Z) : M W unit :=
  gui_moveTo P x y ;;;
  gui_scroll P (dy * SCROLL_MULTIPLIER) x y ;;;
  sleep P POST_SCROLL_WAIT.

Definition _replay_key_event (event : Event) : M W bool :=
  let k := ev_key event in
  try_except
    ((if single_printable k then
        if etype_is event "key_press" then gui_keyDown P k
        else gui_keyUp P k
      else
        let mapped := mapped_key k in
        if etype_is event "key_press" then gui_keyDown P mapped
        else gui_keyUp P mapped) ;;;
     ret true)
    (ret false).

(** Lines 768-773 and 779-783: the cascade on a fresh screenshot,
    else the geometry translation. *)
Definition resolve_point (event : Event) : M W (Z * Z) :=
  fun w =>
    let '(shot, w1) := safe_screenshot P w in
    match fst (Cascade._try_find_click_target V shot event script_dir) with
    | Some target => (Ok target, w1)
    | None =>
      (Geometry._translate_coord (ev_x event, ev_y event) rec_win win_rect,
       w1)
    end.

(** Lines 760-793: the part of the [try] block after the wait. *)
Definition dispatch (event : Event) : M W Outcome :=
  if etype_is event "key_press" || etype_is event "key_release" then
    ok <- _replay_key_event event ;;
    ret (if ok : bool then Succeeded else Failed)
  else if etype_is event "mouse_scroll" then
    p <- resolve_point event ;;
    _perform_scroll_at (fst p) (snd p) (ev_dy event) ;;;
    ret Succeeded
  else if etype_is event "mouse_click" then
    p <- resolve_point event ;;
    ok <- Executor._intelligent_click P (fst p) (snd p) DEFAULT_MAX_RADIUS ;;
    ret (if ok : bool then Succeeded else Failed)
  else ret Ignored.

Definition count (st : Locals) (o : Outcome) : Locals :=
  match o with
  | Succeeded =>
    {| success := success st + 1; fail := fail st; last_ts := last_ts st |}
  | Failed =>
    {| success := success st; fail := fail st + 1; last_ts := last_ts st |}
  | Ignored => st
  end.

(** Lines 753-797: one iteration after the abort check.  [last_ts] is
    assigned before the action, so it stays assigned when the action
    raises. *)
Definition replay_event (st : Locals) (event : Event) (w : W) : Locals * W :=
  let t := ev_timestamp event in
  let d := (t - last_ts st)%Q in
  let wait := if Qle_bool d 0 then 0%Q else d in
  let w1 := if negb (Qle_bool wait 0) then time_sleep P wait w else w in
  let st1 := {| success := success st; fail := fail st; last_ts := t |} in
  match dispatch event w1 with
  | (Ok o, w2) => (count st1 o, w2)
  | (Raised, w2) => (count st1 Failed, w2)
  end.

(** Lines 749-797: [break] when the abort flag is set at the top of an
    iteration. *)
Fixpoint replay_loop (events : list Event) (st : Locals) (w : W)
  : Locals * W :=
  match events with
  | [] => (st, w)
  | event :: rest =>
    if abort_is_set P w then (st, w)
    else
      let '(st', w') := replay_event st event w in
      replay_loop rest st' w'
  end.

(** The iterations of the given events one after the other, the abort
    flag not looked at. *)
Fixpoint run_events (events : list Event) (st : Locals) (w : W)
  : Locals * W :=
  match events with
  | [] => (st, w)
  | event :: rest =>
    let '(st', w') := replay_event st event w in
    run_events rest st' w'
  end.
End WithPlatform.

Definition start : Locals := {| success := 0; fail := 0; last_ts := 0 |}.

(** [replay_script] on a loaded list of events, from line 734 on: the
    loop, then the two counters printed on line 799 and the flag
    returned on line 800.  An empty list returns [False] at once (lines
    696-698).  The set-up in between (simulator device, window
    placement, app launch) is not part of the engine. *)
Definition replay_script {W} (P : Platform W) (V : Cascade.Vision)
    (script_dir : string) (rec_win win_rect : Geometry.Rect)
    (events : list Event) (w : W) : option (Z * Z) * bool * W :=
  match events with
  | [] => (None, false, w)
  | _ =>
    let '(st, w') :=
      replay_loop P V script_dir rec_win win_rect events start w in
    (Some (success st, fail st), fail st =? 0, w')
  end.

(** The pointer, wheel and keyboard calls: what an event's action
    consists of. *)
Definition is_input (a : Action) : bool :=
  match a with
  | AMoveTo _ _ | AClick _ _ | AScroll _ _ _ | AKeyDown _ | AKeyUp _ => true
  | ASleep _ | AScreenshot => false
  end.

(** The pointer, wheel and keyboard calls that started with the abort
    flag already set. *)
Definition inputs_after_abort (log : list LogEntry) : list Action :=
  map le_action
    (List.filter (fun e => is_input (le_action e) && le_aborted e) log).

(** A replay of two clicks, one second apart, during which the operator
    presses the abort hotkey while the loop sleeps before the first. *)
Definition two_clicks : list Event :=
  [Demo.click_event 1 100 100 ∅; Demo.click_event 2 300 300 ∅].

Definition hotkey_pending : Demo.HotkeyWorld * list LogEntry :=
  ({| Demo.flag := false; Demo.hotkey_during_next_sleep := true |}, []).

Definition abort_during_wait
  : option (Z * Z) * bool * (Demo.HotkeyWorld * list LogEntry) :=
  replay_script (logged Demo.hotkey_platform) Demo.no_vision "rec"
    Demo.screen Demo.window two_clicks hotkey_pending.

End Replay.


(** ** Replay: kinds of events *)

Module Kinds.

(** The event has one of the four types the replay loop acts on; any
    other type (a pointer move, an unknown type, no type) falls through
    the [try] block. *)
Definition actionable (event : Event) : bool :=
  Replay.etype_is event "key_press" || Replay.etype_is event "key_release"
  || Replay.etype_is event "mouse_scroll"
  || Replay.etype_is event "mouse_click".




End Kinds.

(** ** More sample inputs *)

Module Samples.



End Samples.

(** ** Screen capture and UI state, as the recorder uses them *)

Module Capture.

(** The screen, the clock and the optional back ends at recording time,
    on a world [W].  A capture may change the world; reading the clock
    and the abort flag does not. *)
Record Backend (W : Type) : Type := {
  MSS_AVAILABLE : bool;
  OCR_AVAILABLE : bool;
  (** The [with mss.mss() as s:] block of [_safe_screenshot]. *)
  mss_grab : W -> result Image * W;
  (** [pyautogui.screenshot()] *)
  pyautogui_screenshot : W -> result Image * W;
  (** [time.time()] *)
  clock : W -> Q;
  (** [time.sleep(seconds)] *)
  pause : Q -> W -> W;
  (** [abort_event.is_set()] *)
  abort_flag : W -> bool;
  (** [hashlib.sha256(bytes).hexdigest()] *)
  sha256_hexdigest : list Z -> result string;
  (** [pytesseract.image_to_string(img)] *)
  image_to_string : Image -> result string;
  (** Lines 218-221 before [.strip()]: crop [(x, y, x + w, y + h)],
      grey scale, resize by 2, [image_to_string] with [--psm 8]. *)
  region_to_string : Image -> Z -> Z -> Z -> Z -> result string;
  (** [s.strip()], [s.splitlines()] *)
  str_strip : string -> string;
  str_splitlines : string -> list string;
  (** [_img_hash(img.crop(box))] *)
  crop_hash : Image -> Snips.Box -> option string;
  (** [crop.save(path)] returned. *)
  save_ok : string -> Snips.Box -> bool;
}.
Arguments MSS_AVAILABLE {W} _.
Arguments OCR_AVAILABLE {W} _.
Arguments mss_grab {W} _ _.
Arguments pyautogui_screenshot {W} _ _.
Arguments clock {W} _ _.
Arguments pause {W} _ _ _.
Arguments abort_flag {W} _ _.
Arguments sha256_hexdigest {W} _ _.
Arguments image_to_string {W} _ _.
Arguments region_to_string {W} _ _ _ _ _ _.
Arguments str_strip {W} _ _.
Arguments str_splitlines {W} _ _.
Arguments crop_hash {W} _ _ _.
Arguments save_ok {W} _ _ _.

Section WithBackend.
Context {W : Type}.
Variable B : Backend W.

(** The second [try] of [_safe_screenshot]. *)
Definition screenshot_fallback (w : W) : option Image * W :=
  match pyautogui_screenshot B w with
  | (Ok img, w') => (Some img, w')
  | (Raised, w') => (None, w')
  end.

Definition _safe_screenshot (w : W) : option Image * W :=
  if MSS_AVAILABLE B then
    match mss_grab B w with
    | (Ok img, w') => (Some img, w')
    | (Raised, w') => screenshot_fallback w'
    end
  else screenshot_fallback w.

(** [[ln.strip() for ln in text.splitlines() if ln.strip()]] *)
Definition text_lines (text : string) : list string :=
  omap (fun ln =>
          let s := str_strip B ln in
          if str_truthy s then Some s else None)
       (str_splitlines B text).

Definition _capture_ui_state (w : W) : UIState.UIState * W :=
  let '(img, w1) := _safe_screenshot w in
  let now := clock B w1 in
  match img with
  | None =>
    ({| UIState.timestamp := now;
        UIState.screenshot_hash := None;
        UIState.visible_text := None |}, w1)
  | Some i =>
    ({| UIState.timestamp := now;
        UIState.screenshot_hash :=
          UIState._img_hash (sha256_hexdigest B) i;
        UIState.visible_text :=
          if OCR_AVAILABLE B then
            match image_to_string B i with
            | Ok text => Some (text_lines text)
            | Raised => None
            end
          else None |}, w1)
  end.

Definition _extract_text_from_region (img : Image) (x y w h : Z)
  : option string :=
  if negb (OCR_AVAILABLE B) then None
  else
    match region_to_string B img x y w h with
    | Raised => None
    | Ok raw =>
      let text := str_strip B raw in
      if str_truthy text then Some text else None
    end.
End WithBackend.

End Capture.

(** ** Recorder *)

Module Recorder.

Inductive ActionType : Type :=
| MOUSE_CLICK
| MOUSE_MOVE
| MOUSE_SCROLL
| KEY_PRESS
| KEY_RELEASE.

(** [ActionType.value] *)
Definition action_value (a : ActionType) : string :=
  match a with
  | MOUSE_CLICK => "mouse_click"
  | MOUSE_MOVE => "mouse_move"
  | MOUSE_SCROLL => "mouse_scroll"
  | KEY_PRESS => "key_press"
  | KEY_RELEASE => "key_release"
  end.

(** The values the handlers put into [data]. *)
Inductive JVal : Type :=
| JNull
| JBool (b : bool)
| JInt (z : Z)
| JStr (s : string).

(** The dataclass [EnhancedEvent].  [imgs] holds the attributes
    [img_micro] ... [img_context] that are set, by attribute name, as
    [setattr(ev, k, v)] sets them. *)
Record EnhancedEvent : Type := {
  timestamp : Q;
  action_type : ActionType;
  e_x : Z;
  e_y : Z;
  data : gmap string JVal;
  imgs : gmap string string;
  img_origins : option (gmap string Snips.Origin);
  ui_state_before : option UIState.UIState;
  ui_state_after : option UIState.UIState;
  action_validated : bool;
  validation_confidence : Q;
  ocr_text : option string;
}.

(** [EnhancedEvent(timestamp, action_type, x, y, data)] with the
    defaults of the other fields. *)
Definition new_event (ts : Q) (a : ActionType) (x y : Z)
    (d : gmap string JVal) : EnhancedEvent :=
  {| timestamp := ts; action_type := a; e_x := x; e_y := y; data := d;
     imgs := ∅; img_origins := None;
     ui_state_before := None; ui_state_after := None;
     action_validated := false; validation_confidence := 0;
     ocr_text := None |}.

(** The fields of a [Recorder] that the handlers use. *)
Record State : Type := {
  events : list EnhancedEvent;
  start_time : Q;
  running : bool;
}.

(** [Recorder.__init__] *)
Definition init : State :=
  {| events := []; start_time := 0; running := false |}.

(** A key as [pynput] hands it over: a [KeyCode] with its [char]
    attribute (which can be [None]), or a member of the [Key] enum,
    which has no [char] and prints as [Key.name]. *)
Inductive PKey : Type :=
| KeyCode (char : option string)
| KeyName (repr : string).

(** [try: k = key.char  except Exception: k = str(key)] *)
Definition key_value (key : PKey) : JVal :=
  match key with
  | KeyCode (Some c) => JStr c
  | KeyCode None => JNull
  | KeyName repr => JStr repr
  end.

(** [round(q, 4)] *)
Definition round4 (q : Q) : Q :=
  (inject_Z (Geometry.py_round (q * 10000)) / 10000)%Q.

(** [int(q)]: truncation towards zero. *)
Definition py_int (q : Q) : Z := Z.quot (Qnum q) (Zpos (Qden q)).

Section WithBackend.
Context {W : Type}.
Variable B : Capture.Backend W.
Variable outdir : string.

Definition _ts (st : State) (w : W) : Q :=
  round4 (Capture.clock B w - start_time st).

Definition append (st : State) (ev : EnhancedEvent) : State :=
  {| events := events st ++ [ev];
     start_time := start_time st; running := running st |}.

(** [_validate_effect]: the event as the method leaves it. *)
Definition _validate_effect (ev : EnhancedEvent) (w : W)
  : EnhancedEvent * W :=
  let w1 := Capture.pause B 0.3 w in
  let '(after, w2) := Capture._capture_ui_state B w1 in
  match ui_state_before ev with
  | Some before =>
    let changed :=
      UIState._detect_ui_changes (UIState.screenshot_hash before)
        (UIState.screenshot_hash after) in
    ({| timestamp := timestamp ev; action_type := action_type ev;
        e_x := e_x ev; e_y := e_y ev; data := data ev;
        imgs := imgs ev; img_origins := img_origins ev;
        ui_state_before := ui_state_before ev;
        ui_state_after := Some after;
        action_validated := changed;
        validation_confidence := if changed then 1 else 0;
        ocr_text := ocr_text ev |}, w2)
  | None =>
    ({| timestamp := timestamp ev; action_type := action_type ev;
        e_x := e_x ev; e_y := e_y ev; data := data ev;
        imgs := imgs ev; img_origins := img_origins ev;
        ui_state_before := ui_state_before ev;
        ui_state_after := Some after;
        action_validated := action_validated ev;
        validation_confidence := validation_confidence ev;
        ocr_text := ocr_text ev |}, w2)
  end.

(** [_save_multi_snips(self.outdir, x, y)] on the recorder's back
    end: a screenshot of its own, then the loop over the sizes. *)
Definition save_snips (x y : Z) (w : W) : result Snips.Snips * W :=
  let '(shot, w1) := Capture._safe_screenshot B w in
  (Snips._save_multi_snips
     (fun box => match shot with
                 | Some img => Capture.crop_hash B img box
                 | None => None
                 end)
     (py_int (Capture.clock B w1 * 1000))
     (Capture.save_ok B) outdir shot x y,
   w1).

(** [_record_event].  The event is appended before it is validated;
    the list holds the same object, so the list shows the event as
    [_validate_effect] leaves it. *)
Definition _record_event (st : State) (a : ActionType) (x y : Z)
    (d : gmap string JVal) (w : W) : result State * W :=
  let '(ui_before, w1) := Capture._capture_ui_state B w in
  let ts := _ts st w1 in
  match save_snips x y w1 with
  | (Raised, w2) => (Raised, w2)
  | (Ok snips, w2) =>
    let '(img, w3) := Capture._safe_screenshot B w2 in
    let text :=
      match img with
      | Some i =>
        Capture._extract_text_from_region B i
          (Z.max 0 (x - 50)) (Z.max 0 (y - 25)) 100 50
      | None => None
      end in
    let ev :=
      {| timestamp := ts; action_type := a; e_x := x; e_y := y;
         data := d;
         imgs := Snips.results snips;
         img_origins := Some (Snips.origins snips);
         ui_state_before := Some ui_before; ui_state_after := None;
         action_validated := false; validation_confidence := 0;
         ocr_text := text |} in
    match a with
    | MOUSE_CLICK | MOUSE_SCROLL =>
      let '(ev', w4) := _validate_effect ev w3 in
      (Ok (append st ev'), w4)
    | _ => (Ok (append st ev), w3)
    end
  end.

(** [not self.running or abort_event.is_set()] is false. *)
Definition active (st : State) (w : W) : bool :=
  running st && negb (Capture.abort_flag B w).

Definition on_move (st : State) (x y : Z) (w : W) : result State * W :=
  (Ok st, w).

Definition on_click (st : State) (x y : Z) (button : string)
    (pressed : bool) (w : W) : result State * W :=
  if negb (active st w) then (Ok st, w)
  else if pressed then
    _record_event st MOUSE_CLICK x y
      (<["button" := JStr button]> (<["pressed" := JBool true]> ∅)) w
  else (Ok st, w).

Definition on_scroll (st : State) (x y dx dy : Z) (w : W)
  : result State * W :=
  if negb (active st w) then (Ok st, w)
  else
    _record_event st MOUSE_SCROLL x y
      (<["dx" := JInt dx]> (<["dy" := JInt dy]> ∅)) w.

Definition on_press (st : State) (key : PKey) (w : W) : result State * W :=
  if negb (active st w) then (Ok st, w)
  else
    (Ok (append st
           (new_event (_ts st w) KEY_PRESS 0 0
              (<["key" := key_value key]> ∅))), w).

Definition on_release (st : State) (key : PKey) (w : W)
  : result State * W :=
  if negb (active st w) then (Ok st, w)
  else
    (Ok (append st
           (new_event (_ts st w) KEY_RELEASE 0 0
              (<["key" := key_value key]> ∅))), w).

(** [start] and [stop], without the listener threads. *)
Definition start (st : State) (w : W) : State :=
  {| events := events st; start_time := Capture.clock B w;
     running := true |}.

Definition stop (st : State) : State :=
  {| events := events st; start_time := start_time st;
     running := false |}.

(** What the two listeners deliver. *)
Inductive Callback : Type :=
| OnMove (x y : Z)
| OnClick (x y : Z) (button : string) (pressed : bool)
| OnScroll (x y dx dy : Z)
| OnPress (key : PKey)
| OnRelease (key : PKey).

Definition handle (st : State) (cb : Callback) (w : W)
  : result State * W :=
  match cb with
  | OnMove x y => on_move st x y w
  | OnClick x y button pressed => on_click st x y button pressed w
  | OnScroll x y dx dy => on_scroll st x y dx dy w
  | OnPress key => on_press st key w
  | OnRelease key => on_release st key w
  end.

(** The callbacks one after the other; a raise ends the run. *)
Fixpoint handle_all (st : State) (cbs : list Callback) (w : W)
  : result State * W :=
  match cbs with
  | [] => (Ok st, w)
  | cb :: rest =>
    match handle st cb w with
    | (Ok st', w') => handle_all st' rest w'
    | (Raised, w') => (Raised, w')
    end
  end.
End WithBackend.

(** The callback records nothing whatever the state: a pointer move, or
    the release of a button. *)
Definition records_nothing (cb : Callback) : bool :=
  match cb with
  | OnMove _ _ => true
  | OnClick _ _ _ pressed => negb pressed
  | _ => false
  end.

Definition is_key_callback (cb : Callback) : bool :=
  match cb with
  | OnPress _ | OnRelease _ => true
  | _ => false
  end.

(** The dataclass fields that hold region images. *)
Definition img_fields : list string :=
  ["img_micro"; "img_small"; "img_medium"; "img_large"; "img_context"].

(** The event as [replay_script] reads it from [script.json], that is
    after [to_dict], [json.dumps] and [json.loads]: the type by its
    value, the region fields and the text that are not [None], the
    coordinates, and from [data] the key and the wheel delta.  A key
    that is not a string has no counterpart in [Event]. *)
Definition replay_view (e : EnhancedEvent) : option Event :=
  let strs :=
    <["action_type" := action_value (action_type e)]>
      (match ocr_text e with
       | Some t => <["ocr_text" := t]>
       | None => fun m => m
       end (filter (fun kv => In (fst kv) img_fields) (imgs e))) in
  let dy := match data e !! "dy" with Some (JInt d) => d | _ => 0 end in
  match data e !! "key" with
  | Some (JStr k) =>
    Some {| ev_str := strs; ev_timestamp := timestamp e;
            ev_x := e_x e; ev_y := e_y e; ev_key := k; ev_dy := dy |}
  | None =>
    Some {| ev_str := strs; ev_timestamp := timestamp e;
            ev_x := e_x e; ev_y := e_y e; ev_key := EmptyString;
            ev_dy := dy |}
  | Some _ => None
  end.

End Recorder.

(** ** What a recording holds *)

Module Recorded.

Import Recorder.

(** The state was produced by [_capture_ui_state]: its hash is absent,
    or [_img_hash] of a captured image. *)
Definition captured {W} (B : Capture.Backend W) (s : UIState.UIState) : Prop :=
  UIState.screenshot_hash s = None
  \/ exists img,
       UIState.screenshot_hash s
       = UIState._img_hash (Capture.sha256_hexdigest B) img.

(** A key event: only the timestamp, the type and the key are set. *)
Definition key_event_ok (e : EnhancedEvent) : Prop :=
  e = new_event (timestamp e) (action_type e) 0 0 (data e)
  /\ exists key, data e = <["key" := key_value key]> ∅.

(** A click or scroll event: both UI states captured, the validation
    flag computed from their hashes, every stored region under one of
    the five field names with its origin, and a text that is absent or
    not empty. *)
Definition pointer_event_ok {W} (B : Capture.Backend W) (e : EnhancedEvent)
  : Prop :=
  (exists before after,
     ui_state_before e = Some before /\ ui_state_after e = Some after
     /\ captured B before /\ captured B after
     /\ action_validated e
        = UIState._detect_ui_changes (UIState.screenshot_hash before)
            (UIState.screenshot_hash after)
     /\ validation_confidence e = (if action_validated e then 1 else 0)%Q)
  /\ (exists o,
        img_origins e = Some o
        /\ forall k path, imgs e !! k = Some path ->
             In k img_fields /\ is_Some (o !! k))
  /\ ocr_text e <> Some EmptyString.

Definition recorded_ok {W} (B : Capture.Backend W) (e : EnhancedEvent) : Prop :=
  match action_type e with
  | KEY_PRESS | KEY_RELEASE => key_event_ok e
  | MOUSE_CLICK =>
    pointer_event_ok B e
    /\ exists button,
         data e = <["button" := JStr button]> (<["pressed" := JBool true]> ∅)
  | MOUSE_SCROLL =>
    pointer_event_ok B e
    /\ exists dx dy, data e = <["dx" := JInt dx]> (<["dy" := JInt dy]> ∅)
  | MOUSE_MOVE => False
  end.

(** The string entries of an event's replay view. *)
Definition view_strs (e : EnhancedEvent) : gmap string string :=
  <["action_type" := action_value (action_type e)]>
    (match ocr_text e with
     | Some t => <["ocr_text" := t]>
     | None => fun m => m
     end (filter (fun kv => In (fst kv) img_fields) (imgs e))).

(** The callbacks that record an event when the recorder is active. *)
Definition recording_callbacks (cbs : list Callback) : list Callback :=
  List.filter (fun cb => negb (records_nothing cb)) cbs.

End Recorded.

(** ** A sample recording back end *)

Module Studio.

Definition digest_a : string :=
  "aaaaaaaaaaaaaaaaaaaaaaaaaaaaaaaaaaaaaaaaaaaaaaaaaaaaaaaaaaaaaaaa".
Definition digest_b : string :=
  "bbbbbbbbbbbbbbbbbbbbbbbbbbbbbbbbbbbbbbbbbbbbbbbbbbbbbbbbbbbbbbbb".

(** The world is a tick counter, which is also what the clock shows.
    Only the [pyautogui] capture is installed; a capture takes one tick
    and shows a frame whose one byte is the tick it was taken at, a
    pause takes two ticks; the digest tells even from odd bytes. *)
Definition backend : Capture.Backend Z :=
  {| Capture.MSS_AVAILABLE := false;
     Capture.OCR_AVAILABLE := false;
     Capture.mss_grab := fun w => (Raised, w);
     Capture.pyautogui_screenshot := fun w =>
       (Ok {| img_w := 1000; img_h := 800; img_bytes := [w] |}, w + 1);
     Capture.clock := inject_Z;
     Capture.pause := fun _ w => w + 2;
     Capture.abort_flag := fun _ => false;
     Capture.sha256_hexdigest := fun bytes =>
       Ok (if Z.even (hd 0 bytes) then digest_a else digest_b);
     Capture.image_to_string := fun _ => Raised;
     Capture.region_to_string := fun _ _ _ _ _ => Raised;
     Capture.str_strip := fun s => s;
     Capture.str_splitlines := fun s => [s];
     Capture.crop_hash := fun _ _ => Some "abcd";
     Capture.save_ok := fun _ _ => true;
  |}.

(** A recorder that was started at second 0. *)
Definition started : Recorder.State :=
  Recorder.start backend Recorder.init 0.

(** A press and release of the left button, then the key [a]. *)
Definition session : list Recorder.Callback :=
  [ Recorder.OnClick 100 100 "Button.left" true;
    Recorder.OnClick 100 100 "Button.left" false;
    Recorder.OnPress (Recorder.KeyCode (Some "a")) ].

End Studio.

(** ** Abort hotkey listener *)

Module Hotkey.

(** A key as [pynput] reports it: a member of the [Key] enum (the
    control and shift keys by name, any other by what [str(key)]
    gives), or a [KeyCode] with its [char] and its [str(key)]. *)
Inductive Key : Type :=
| ctrl | ctrl_l | ctrl_r
| shift | shift_l | shift_r
| other_key (repr : string)
| key_code (char : option string) (repr : string).

Definition ascii_lower (a : ascii) : ascii :=
  let n := nat_of_ascii a in
  if Nat.leb 65 n && Nat.leb n 90 then ascii_of_nat (n + 32) else a.

(** [s.lower()] on one-byte characters. *)
Fixpoint str_lower (s : string) : string :=
  match s with
  | EmptyString => EmptyString
  | String a t => String (ascii_lower a) (str_lower t)
  end.

(** [ABORT_KEYS] *)
Definition ABORT_KEYS : gset string :=
  {[ "<ctrl>"; "<shift>"; "a"; "f"; "k" ]}.

(** What the [if]/[elif]/[else] of [on_press] adds to [self.pressed],
    if anything. *)
Definition tag (key : Key) : option string :=
  match key with
  | ctrl | ctrl_l | ctrl_r => Some "<ctrl>"
  | shift | shift_l | shift_r => Some "<shift>"
  | other_key repr =>
    if bool_decide (In repr ["a"; "f"; "k"]) then Some repr else None
  | key_code char repr =>
    let ch :=
      match char with
      | Some c => if str_truthy c then str_lower c else repr
      | None => repr
      end in
    if bool_decide (In ch ["a"; "f"; "k"]) then Some ch else None
  end.

(** [self.pressed], [abort_event], and whether the listener still
    runs ([on_press] returns [False] to stop it). *)
Record State : Type := {
  pressed : gset string;
  abort_set : bool;
  listening : bool;
}.


Definition on_press (st : State) (key : Key) : State :=
  let pressed' :=
    match tag key with
    | Some t => {[ t ]} ∪ pressed st
    | None => pressed st
    end in
  if bool_decide (ABORT_KEYS ⊆ pressed') then
    {| pressed := pressed'; abort_set := true; listening := false |}
  else
    {| pressed := pressed'; abort_set := abort_set st;
       listening := listening st |}.

(** [on_release]: [pass]. *)
Definition on_release (st : State) (key : Key) : State := st.




End Hotkey.

(** ** Simulator devices and runtimes *)

Module Simctl.

(** One entry of [simctl list runtimes --json]. *)
Record Runtime : Type := {
  rt_identifier : option string;
  rt_name : option string;
  rt_isAvailable : option bool;
}.

Definition IOS_PREFIX : string :=
  "com.apple.CoreSimulator.SimulationRuntime.iOS".

(** The filter of lines 302-306: [identifier] (default empty) starts
    with the iOS prefix and [isAvailable] (default [True]) holds. *)
Definition is_ios (r : Runtime) : bool :=
  String.prefix IOS_PREFIX (default EmptyString (rt_identifier r))
  && default true (rt_isAvailable r).

Definition Version : Type := nat * nat.

(** Tuple comparison [a <= b]. *)
Definition version_le (a b : Version) : bool :=
  Nat.ltb (fst a) (fst b)
  || (Nat.eqb (fst a) (fst b) && Nat.leb (snd a) (snd b)).

Section WithRegex.
(** [re.search(r"iOS (\d+)\.(\d+)", name)] with both groups as
    integers. *)
Variable ios_version : string -> option Version.

Definition ver_key (r : Runtime) : Version :=
  match ios_version (default EmptyString (rt_name r)) with
  | Some v => v
  | None => (0, 0)%nat
  end.

(** [list.sort(key=ver_key)]: ascending and stable. *)
Fixpoint insert_sorted (r : Runtime) (l : list Runtime) : list Runtime :=
  match l with
  | [] => [r]
  | r' :: rest =>
    if version_le (ver_key r) (ver_key r') then r :: r' :: rest
    else r' :: insert_sorted r rest
  end.

Definition sort_by_version (l : list Runtime) : list Runtime :=
  fold_right insert_sorted [] l.

Definition find_runtime_identifier (runtimes : list Runtime)
  : option string :=
  let ios := List.filter is_ios runtimes in
  match last (sort_by_version ios) with
  | None => None
  | Some newest => rt_identifier newest
  end.
End WithRegex.

(** One device of [simctl list devices --json]. *)
Record Device : Type := {
  d_name : option string;
  d_udid : option string;
}.

(** The nested loops of lines 321-324 over the devices of one runtime
    after the other: the first device with the name. *)
Fixpoint first_named (sim_name : string) (devs : list Device)
  : option Device :=
  match devs with
  | [] => None
  | d :: rest =>
    if bool_decide (d_name d = Some sim_name) then Some d
    else first_named sim_name rest
  end.

(** [find_or_create_device].  [devices] is the dict of the listing in
    its order; [rt_id] is what [find_runtime_identifier] returns;
    [create] is [simctl create], giving return code and output;
    [strip] is [str.strip].  The second component tells whether
    [simctl create] was run. *)
Definition find_or_create_device (strip : string -> string)
    (devices : list (string * list Device)) (rt_id : option string)
    (create : string -> string -> Z * string) (sim_name : string)
  : option string * bool :=
  match first_named sim_name (flat_map snd devices) with
  | Some d => (d_udid d, false)
  | None =>
    match rt_id with
    | None => (None, false)
    | Some id =>
      if negb (str_truthy id) then (None, false)
      else
        let '(returncode, stdout) := create sim_name id in
        if negb (returncode =? 0) || negb (str_truthy (strip stdout))
        then (None, true)
        else (Some (strip stdout), true)
    end
  end.

End Simctl.

(** * Properties *)

(** ** Geometry translator *)

Section GeometryFacts.
Import Geometry.






End GeometryFacts.




(** The scenario of a window twice as large: (100, 200) in a 400 x 800
    window maps to (200, 400) in an 800 x 1600 window. *)
Example translate_double_size :
  Geometry._translate_coord (100, 200) (0, 0, 400, 800) (0, 0, 800, 1600)
  = Ok (200, 400).
Proof. vm_compute. reflexivity. Qed.

(** Rounding is to the nearest pixel, ties to even: an offset of 1 scaled
    by 1/2 and by 3/2. *)
Example translate_rounds_half_to_even :
  Geometry._translate_coord (1, 1) (0, 0, 2, 2) (0, 0, 1, 3) = Ok (0, 2).
Proof. vm_compute. reflexivity. Qed.




(** ** UI state sampler *)

Section UIStateFacts.
Import UIState.

Lemma str_truthy_true (s : string) : str_truthy s = true <-> s <> EmptyString.
Proof. destruct s; simpl; split; congruence. Qed.

(** The function on every pair of [Optional[str]], empty strings
    included. *)
Lemma detect_ui_changes_true (before after : option string) :
  _detect_ui_changes before after = true
  <-> exists b a, before = Some b /\ after = Some a
                  /\ b <> EmptyString /\ a <> EmptyString /\ b <> a.
Proof.
  unfold _detect_ui_changes.
  rewrite !andb_true_iff, negb_true_iff.
  destruct before as [b|], after as [a|]; simpl;
    try (split; [intros [[? ?] ?]; discriminate
                | intros (? & ? & ? & ? & _); discriminate]).
  rewrite !str_truthy_true. split.
  - intros [[Hb Ha] Hne]. exists b, a. repeat split; try assumption.
    intros ->. rewrite String.eqb_refl in Hne. discriminate.
  - intros (b' & a' & [= <-] & [= <-] & Hb & Ha & Hne).
    repeat split; try assumption.
    apply String.eqb_neq. exact Hne.
Qed.

Lemma substring_length (m : nat) (s : string) :
  (m <= String.length s)%nat -> String.length (substring 0 m s) = m.
Proof.
  revert s. induction m as [|m IH]; intros [|c s] Hlen; simpl in *;
    try reflexivity; try lia.
  rewrite IH by lia. reflexivity.
Qed.

(** A hash that [_img_hash] computes from a 64-character hex digest is
    a fingerprint hash. *)
Lemma img_hash_is_fingerprint (sha : list Z -> result string) (img : Image) :
  (forall bytes md, sha bytes = Ok md -> String.length md = 64%nat) ->
  is_fingerprint_hash (_img_hash sha img).
Proof.
  intros Hsha. unfold _img_hash.
  destruct (sha (img_bytes img)) as [md|] eqn:E; simpl; [|exact I].
  apply substring_length. rewrite (Hsha _ _ E). unfold digest_width. lia.
Qed.

Lemma fingerprint_hash_nonempty (s : string) :
  is_fingerprint_hash (Some s) -> s <> EmptyString.
Proof. simpl. intros H ->. discriminate H. Qed.
End UIStateFacts.

(** C6: on fingerprint hashes (absent, or a 16-character digest),
    [_detect_ui_changes] is true exactly when both hashes are present and
    differ; it is false on a pair of equal hashes and whenever either
    hash is absent. *)
Theorem detect_ui_changes_iff_present_and_differ (before after : option string) :
  UIState.is_fingerprint_hash before ->
  UIState.is_fingerprint_hash after ->
  (UIState._detect_ui_changes before after = true
   <-> exists b a, before = Some b /\ after = Some a /\ b <> a)
  /\ UIState._detect_ui_changes before before = false
  /\ UIState._detect_ui_changes None after = false
  /\ UIState._detect_ui_changes before None = false
  /\ (forall a : UIState.UIState, UIState.changed a a = false).
Proof.
  intros Hb Ha.
  assert (Hrefl : forall h, UIState._detect_ui_changes h h = false).
  { intros h. apply not_true_is_false. rewrite detect_ui_changes_true.
    intros (b & a & -> & [= ->] & _ & _ & Hne). now apply Hne. }
  split; [|split; [|split; [|split]]]; [| | | |intros a; apply Hrefl].
  - rewrite detect_ui_changes_true. split.
    + intros (b & a & ? & ? & _ & _ & ?). eauto.
    + intros (b & a & -> & -> & Hne). exists b, a.
      repeat split; try assumption; now apply fingerprint_hash_nonempty.
  - apply Hrefl.
  - reflexivity.
  - unfold UIState._detect_ui_changes. simpl. now rewrite andb_false_r.
Qed.

Lemma detect_ui_changes_iff_present_and_differ_witness :
  UIState._detect_ui_changes (Some "00112233445566aa") (Some "00112233445566bb")
  = true
  /\ UIState._detect_ui_changes (Some "00112233445566aa")
       (Some "00112233445566aa") = false.
Proof.
  destruct (detect_ui_changes_iff_present_and_differ
              (Some "00112233445566aa") (Some "00112233445566bb")
              eq_refl eq_refl) as (Hiff & Hsame & _ & _ & _).
  split; [|exact Hsame].
  apply Hiff. exists "00112233445566aa", "00112233445566bb".
  repeat split. discriminate.
Defined.

(** ** Region extractor *)

Section SnipsFacts.
Import Snips.
Variable crop_digest : Box -> option string.
Variable now_ms : Z.
Variable save_ok : string -> Box -> bool.
Variable outdir : string.
Variables sw sh x y : Z.

(** What holds of the loop state once the entries [done] are behind. *)
Record snips_inv (done : list (string * (Z * Z))) (acc : Snips) : Prop := {
  inv_crop : forall k path,
    results acc !! k = Some path ->
    exists name w h,
      In (name, (w, h)) done /\ k = "img_" +:+ name
      /\ box_empty (clip_box sw sh x y w h) = false
      /\ box_within sw sh (clip_box sw sh x y w h)
      /\ In (path, clip_box sw sh x y w h) (written acc)
      /\ origins acc !! k
         = Some {| origin_left := left (clip_box sw sh x y w h);
                   origin_top := top (clip_box sw sh x y w h) |};
  inv_keys : forall k, origins acc !! k = None <-> results acc !! k = None;
  inv_size : (size (results acc) <= length done)%nat;
}.

Lemma snips_inv_start : snips_inv [] no_snips.
Proof using Type.
  split; simpl.
  - intros k path H. rewrite lookup_empty in H. discriminate H.
  - intros k. rewrite !lookup_empty. split; intros _; reflexivity.
  - rewrite map_size_empty. apply le_n.
Qed.

Lemma snips_inv_skip done entry acc :
  snips_inv done acc -> snips_inv (done ++ [entry]) acc.
Proof.
  intros [Hc Hk Hs]. split.
  - intros k path H. destruct (Hc k path H) as (n & w & h & Hin & rest).
    exists n, w, h. split; [apply in_or_app; now left | exact rest].
  - exact Hk.
  - rewrite length_app. simpl. lia.
Qed.

Lemma nonempty_box_within w h :
  box_empty (clip_box sw sh x y w h) = false ->
  box_within sw sh (clip_box sw sh x y w h).
Proof.
  unfold box_empty, box_within, clip_box. simpl.
  rewrite orb_false_iff, !Z.leb_gt. lia.
Qed.

Lemma nonempty_box_crops b : box_empty b = false -> pil_crop b = Ok b.
Proof.
  unfold box_empty, pil_crop.
  rewrite orb_false_iff, !Z.leb_gt. intros [H1 H2].
  destruct (Z.ltb_spec (right b) (left b)); [lia |].
  destruct (Z.ltb_spec (bottom b) (top b)); [lia | reflexivity].
Qed.

Lemma snip_step_inv done entry acc :
  snips_inv done acc ->
  exists acc',
    snip_step crop_digest now_ms save_ok outdir sw sh x y acc entry = Ok acc'
    /\ snips_inv (done ++ [entry]) acc'.
Proof.
  intros Hinv. destruct entry as [name [w h]]. unfold snip_step.
  destruct (box_empty (clip_box sw sh x y w h)) eqn:Hempty.
  { exists acc. split; [reflexivity | now apply snips_inv_skip]. }
  rewrite (nonempty_box_crops _ Hempty).
  destruct (save_ok _ _) eqn:Hsave.
  2:{ exists acc. split; [reflexivity | now apply snips_inv_skip]. }
  eexists. split; [reflexivity |].
  destruct Hinv as [Hc Hk Hs]. split; simpl.
  - intros k path H.
    destruct (decide (k = "img_" +:+ name)) as [->|Hne].
    + rewrite lookup_insert_eq in H. injection H as <-.
      exists name, w, h. repeat split.
      * apply in_or_app. right. now left.
      * exact Hempty.
      * apply (nonempty_box_within _ _ Hempty).
      * apply (nonempty_box_within _ _ Hempty).
      * apply (nonempty_box_within _ _ Hempty).
      * apply (nonempty_box_within _ _ Hempty).
      * apply (nonempty_box_within _ _ Hempty).
      * apply (nonempty_box_within _ _ Hempty).
      * apply in_or_app. right. now left.
      * now rewrite lookup_insert_eq.
    + rewrite lookup_insert_ne in H by congruence.
      destruct (Hc k path H) as (n & w' & h' & Hin & Hkey & He & Hw & Hwr & Ho).
      exists n, w', h'. repeat split; try assumption; try apply Hw.
      * apply in_or_app. now left.
      * apply in_or_app. now left.
      * rewrite lookup_insert_ne by congruence. exact Ho.
  - intros k. destruct (decide (k = "img_" +:+ name)) as [->|Hne].
    + rewrite !lookup_insert_eq. split; discriminate.
    + rewrite !lookup_insert_ne by congruence. apply Hk.
  - rewrite map_size_insert, length_app. simpl.
    destruct (results acc !! _); simpl; lia.
Qed.

Lemma snip_loop_inv todo : forall done acc,
  snips_inv done acc ->
  exists acc',
    snip_loop crop_digest now_ms save_ok outdir sw sh x y todo acc = Ok acc'
    /\ snips_inv (done ++ todo) acc'.
Proof.
  induction todo as [|entry rest IH]; intros done acc Hinv; simpl.
  - exists acc. rewrite app_nil_r. now split.
  - destruct (snip_step_inv done entry acc Hinv) as (acc1 & -> & Hinv1).
    destruct (IH _ _ Hinv1) as (acc' & Hrun & Hinv').
    exists acc'. split; [exact Hrun |].
    now rewrite <- app_assoc in Hinv'.
Qed.
End SnipsFacts.

(** The five size names are distinct, so a key names one size. *)
Lemma sizes_key_inj name w h name' w' h' :
  In (name, (w, h)) Snips.sizes -> In (name', (w', h')) Snips.sizes ->
  "img_" +:+ name = "img_" +:+ name' -> (w, h) = (w', h').
Proof.
  unfold Snips.sizes. simpl.
  intros H H' E.
  repeat (destruct H as [H|H]; [injection H as <- <- <- |]); try contradiction;
    repeat (destruct H' as [H'|H']; [injection H' as <- <- <- |]);
    try contradiction; try reflexivity; discriminate E.
Qed.

(** C7: for every frame and point, [_save_multi_snips] returns (it does
    not raise) at most five crops, keyed by the fixed sizes; every
    returned crop was saved from a box that is not empty and lies within
    the frame, [origins] records that box's top-left corner under the
    same key, and a size whose clipped box is empty has no entry. *)
Theorem save_multi_snips_crops_within_frame
    (crop_digest : Snips.Box -> option string) (now_ms : Z)
    (save_ok : string -> Snips.Box -> bool) (outdir : string)
    (screenshot : option Image) (x y : Z) :
  exists snips,
    Snips._save_multi_snips crop_digest now_ms save_ok outdir screenshot x y
    = Ok snips
    /\ (size (Snips.results snips) <= 5)%nat
    /\ (forall k path,
          Snips.results snips !! k = Some path ->
          exists img name w h,
            screenshot = Some img
            /\ In (name, (w, h)) Snips.sizes /\ k = "img_" +:+ name
            /\ let box := Snips.clip_box (img_w img) (img_h img) x y w h in
               Snips.box_within (img_w img) (img_h img) box
               /\ In (path, box) (Snips.written snips)
               /\ Snips.origins snips !! k
                  = Some {| Snips.origin_left := Snips.left box;
                            Snips.origin_top := Snips.top box |})
    /\ (forall k, Snips.origins snips !! k = None
                  <-> Snips.results snips !! k = None)
    /\ (forall img name w h,
          screenshot = Some img ->
          In (name, (w, h)) Snips.sizes ->
          Snips.box_empty (Snips.clip_box (img_w img) (img_h img) x y w h)
          = true ->
          Snips.results snips !! ("img_" +:+ name) = None).
Proof.
  destruct screenshot as [img|]; simpl.
  - destruct (snip_loop_inv crop_digest now_ms save_ok outdir
                (img_w img) (img_h img) x y Snips.sizes [] Snips.no_snips
                ltac:(apply snips_inv_start))
      as (acc & Hrun & [Hc Hk Hs]).
    simpl in Hc, Hs.
    exists acc. split; [exact Hrun |].
    split; [exact Hs |]. split; [|split; [exact Hk |]].
    + intros k path H.
      destruct (Hc k path H) as (n & w & h & Hin & Hkey & _ & Hw & Hwr & Ho).
      exists img, n, w, h. repeat split; try assumption; apply Hw.
    + intros img' name w h [= <-] Hin Hempty.
      destruct (Snips.results acc !! ("img_" +:+ name)) as [path|] eqn:E;
        [|reflexivity].
      destruct (Hc _ _ E) as (n & w' & h' & Hin' & Hkey & Hne & _).
      pose proof (sizes_key_inj _ _ _ _ _ _ Hin Hin' Hkey) as [= <- <-].
      congruence.
  - exists Snips.no_snips. split; [reflexivity |].
    unfold Snips.no_snips; cbn [Snips.results Snips.origins].
    split; [rewrite map_size_empty; lia |].
    split; [intros k path H; rewrite lookup_empty in H; discriminate |].
    split; [intros k; rewrite !lookup_empty; tauto |].
    intros img name w h H. discriminate H.
Qed.

(** On a 1000 x 800 frame, a point near the right edge gives five
    crops, clipped at the edge; a point outside the frame gives none. *)
Example save_multi_snips_near_edge :
  match Snips._save_multi_snips (fun _ => Some "abcd") 7 (fun _ _ => true)
          "rec" (Some Demo.frame) 980 100 with
  | Ok snips =>
    size (Snips.results snips) = 5%nat
    /\ Snips.results snips !! "img_micro" = Some "rec/images/micro_abcd.png"
    /\ Snips.origins snips !! "img_micro"
       = Some {| Snips.origin_left := 940; Snips.origin_top := 70 |}
    /\ Snips.origins snips !! "img_context"
       = Some {| Snips.origin_left := 580; Snips.origin_top := 0 |}
  | Raised => False
  end.
Proof. vm_compute. repeat split. Qed.

Example save_multi_snips_outside_frame :
  Snips._save_multi_snips (fun _ => Some "abcd") 7 (fun _ _ => true)
    "rec" (Some Demo.frame) 2000 2000
  = Ok Snips.no_snips.
Proof. reflexivity. Qed.

(** ** Matching cascade *)

Section CascadeFacts.
Import Cascade.
Variable V : Vision.
Variable shot : Image.

Lemma or_else_miss_l (s : Search) : or_else miss s = s.
Proof. destruct s; reflexivity. Qed.

Lemma or_else_miss_r (s : Search) : or_else s miss = s.
Proof.
  destruct s as [[p|] tr]; unfold or_else; simpl; [reflexivity |].
  now rewrite app_nil_r.
Qed.

Lemma or_else_assoc (a b c : Search) :
  or_else (or_else a b) c = or_else a (or_else b c).
Proof.
  destruct a as [[p|] ta], b as [[q|] tb], c as [r tc];
    unfold or_else; simpl; try reflexivity.
  now rewrite app_assoc.
Qed.

Lemma first_hit_cons (a : Attempt) (l : list Attempt) :
  first_hit V shot (a :: l)
  = or_else (run_attempt V shot a, [a]) (first_hit V shot l).
Proof.
  simpl. unfold or_else.
  destruct (run_attempt V shot a); simpl; [reflexivity |].
  now destruct (first_hit V shot l).
Qed.

Lemma first_hit_app (l1 l2 : list Attempt) :
  first_hit V shot (l1 ++ l2)
  = or_else (first_hit V shot l1) (first_hit V shot l2).
Proof.
  induction l1 as [|a l1 IH].
  - simpl. now rewrite or_else_miss_l.
  - rewrite <- app_comm_cons, !first_hit_cons, IH.
    now rewrite or_else_assoc.
Qed.

Lemma first_hit_trace_incl (l : list Attempt) (a : Attempt) :
  In a (snd (first_hit V shot l)) -> In a l.
Proof.
  induction l as [|b l IH]; simpl; [tauto |].
  destruct (run_attempt V shot b).
  - simpl. tauto.
  - destruct (first_hit V shot l) as [r tr]. simpl in *. tauto.
Qed.

Lemma first_hit_all_miss (l : list Attempt) :
  (forall a, In a l -> run_attempt V shot a = None) ->
  first_hit V shot l = (None, l).
Proof.
  induction l as [|b l IH]; intros Hall; simpl; [reflexivity |].
  rewrite (Hall b) by now left.
  rewrite IH by (intros a Ha; apply Hall; now right).
  reflexivity.
Qed.

Lemma template_loop_first_hit (attr candidate : string) (cs : list Q) :
  template_loop V attr candidate shot cs
  = first_hit V shot (map (TryTemplate attr candidate) cs).
Proof.
  induction cs as [|c cs IH]; [reflexivity |].
  cbn [template_loop map]. rewrite first_hit_cons, IH. reflexivity.
Qed.

Lemma try_attr_first_hit (event : Event) (script_dir attr : string) :
  try_attr V event script_dir shot attr
  = first_hit V shot
      match usable V event script_dir attr with
      | None => []
      | Some candidate => attr_schedule attr candidate
      end.
Proof.
  unfold try_attr, usable.
  destruct (ev_str event !! attr) as [pth|]; [|reflexivity].
  destruct (str_truthy pth); cbn [negb]; [|reflexivity].
  destruct (resolve_candidate V script_dir pth) as [c|]; [|reflexivity].
  unfold attr_schedule.
  rewrite first_hit_app, template_loop_first_hit, first_hit_cons.
  cbn [first_hit]. now rewrite or_else_miss_r.
Qed.

Lemma attr_loop_first_hit (event : Event) (script_dir : string)
    (attrs : list string) :
  attr_loop V event script_dir shot attrs
  = first_hit V shot
      (flat_map
         (fun attr =>
            match usable V event script_dir attr with
            | None => []
            | Some candidate => attr_schedule attr candidate
            end) attrs).
Proof.
  induction attrs as [|attr rest IH]; [reflexivity |].
  cbn [attr_loop flat_map].
  now rewrite first_hit_app, try_attr_first_hit, IH.
Qed.

Lemma try_text_first_hit (event : Event) :
  try_text V event shot
  = first_hit V shot
      (let tt := default EmptyString (ev_str event !! "ocr_text") in
       if str_truthy tt then [TryOcr tt] else []).
Proof.
  unfold try_text. cbv zeta.
  destruct (str_truthy _); [|reflexivity].
  rewrite first_hit_cons. cbn [first_hit]. now rewrite or_else_miss_r.
Qed.

(** The cascade goes through [schedule] in order and stops at the first
    attempt that hits. *)
Lemma try_find_click_target_first_hit (event : Event) (script_dir : string) :
  _try_find_click_target V (Some shot) event script_dir
  = first_hit V shot (schedule V event script_dir).
Proof.
  unfold _try_find_click_target, schedule.
  now rewrite first_hit_app, attr_loop_first_hit, try_text_first_hit.
Qed.
End CascadeFacts.

(** C1, as stated, fails: with a small region that correlates badly but
    has enough feature matches, and a medium region that a raster match
    accepts at the highest threshold, the code tries feature matching on
    the small region before any raster match on the medium one and
    returns the feature point (11, 22); the cascade in the order the
    claim gives returns the raster point (200, 180). *)
Lemma feature_match_tried_before_later_raster :
  Cascade._try_find_click_target Demo.vision (Some Demo.frame)
    Demo.two_regions "rec"
  = (Some (11, 22),
     [ Cascade.TryTemplate "img_small" "small.png" 0.85;
       Cascade.TryTemplate "img_small" "small.png" 0.78;
       Cascade.TryTemplate "img_small" "small.png" 0.62;
       Cascade.TryTemplate "img_small" "small.png" 0.45;
       Cascade.TryOrb "img_small" "small.png" ])
  /\ Cascade._cv2_template_match Demo.vision "medium.png" Demo.frame
       Cascade.TEMPLATE_CONF_HIGH = Some (200, 180, 0.90%Q)
  /\ Cascade.spec_locate Demo.vision (Some Demo.frame) Demo.two_regions "rec"
     = (Some (200, 180),
        [ Cascade.TryTemplate "img_small" "small.png" 0.85;
          Cascade.TryTemplate "img_small" "small.png" 0.78;
          Cascade.TryTemplate "img_small" "small.png" 0.62;
          Cascade.TryTemplate "img_small" "small.png" 0.45;
          Cascade.TryTemplate "img_medium" "medium.png" 0.85 ])
  /\ Cascade._try_find_click_target Demo.vision (Some Demo.frame)
       Demo.two_regions "rec"
     <> Cascade.spec_locate Demo.vision (Some Demo.frame)
          Demo.two_regions "rec".
Proof.
  repeat split; try (vm_compute; reflexivity).
  vm_compute. discriminate.
Qed.

(** C1, amended: for every stored event, the cascade takes the region
    attributes in the order small, medium, large, micro, context and, for
    each one that is stored with a backing file, tries raster matching at
    the four thresholds and then feature matching on that same attribute
    before it moves to the next attribute; text matching comes last; the
    first success ends the cascade.  Without a screenshot nothing is
    tried. *)
Theorem try_find_click_target_order
    (V : Cascade.Vision) (shot : Image) (event : Event) (script_dir : string) :
  Cascade._try_find_click_target V (Some shot) event script_dir
  = Cascade.first_hit V shot (Cascade.schedule V event script_dir)
  /\ Cascade._try_find_click_target V None event script_dir = Cascade.miss
  /\ Cascade.img_attrs
     = ["img_small"; "img_medium"; "img_large"; "img_micro"; "img_context"]
  /\ (forall attr candidate,
        Cascade.attr_schedule attr candidate
        = [ Cascade.TryTemplate attr candidate 0.85;
            Cascade.TryTemplate attr candidate 0.78;
            Cascade.TryTemplate attr candidate 0.62;
            Cascade.TryTemplate attr candidate 0.45;
            Cascade.TryOrb attr candidate ]).
Proof.
  split; [apply try_find_click_target_first_hit |].
  repeat split.
Qed.

Section ThresholdFacts.
Import Cascade.
Variable V : Vision.

(** Position and score do not depend on the threshold; the threshold
    only gates the result. *)
Lemma cv2_template_match_gate (template_path : string) (screenshot : Image)
    (confidence : Q) :
  _cv2_template_match V template_path screenshot confidence
  = match template_peak V template_path screenshot with
    | Some (max_val, (cx, cy)) =>
      if score_ge max_val confidence then Some (cx, cy, max_val) else None
    | None => None
    end.
Proof.
  unfold _cv2_template_match, template_peak.
  destruct (negb (CV2_AVAILABLE V)); [reflexivity |].
  destruct (cv2_imread V template_path) as [tpl|]; [|reflexivity].
  destruct (cv2_match_peak V screenshot tpl) as [[m loc]|]; reflexivity.
Qed.

Lemma score_ge_mono (max_val c c' : Q) :
  (c' <= c)%Q -> score_ge max_val c = true -> score_ge max_val c' = true.
Proof.
  unfold score_ge. rewrite !Qle_bool_iff. intros H1 H2.
  now apply (Qle_trans _ c).
Qed.

Lemma very_relaxed_lowest (c : Q) :
  In c confs -> (TEMPLATE_CONF_VERY_RELAXED <= c)%Q.
Proof.
  unfold confs. simpl.
  intros [<-|[<-|[<-|[<-|[]]]]]; unfold Qle; simpl; lia.
Qed.

(** A loop over thresholds that all lie at or above [low] and end with
    [low] decides as one call at [low]. *)
Lemma template_loop_gate (attr candidate : string) (screenshot : Image)
    (low : Q) (cs : list Q) :
  (forall c, In c cs -> (low <= c)%Q) ->
  fst (template_loop V attr candidate screenshot (cs ++ [low]))
  = option_map hit_point (_cv2_template_match V candidate screenshot low).
Proof.
  intros Hlow. rewrite cv2_template_match_gate.
  induction cs as [|c cs IH]; cbn [app template_loop].
  - unfold attempt, or_else. rewrite cv2_template_match_gate.
    destruct (template_peak V candidate screenshot) as [[m [cx cy]]|];
      [|reflexivity].
    destruct (score_ge m low); reflexivity.
  - unfold attempt at 1. unfold or_else at 1.
    rewrite cv2_template_match_gate.
    destruct (template_peak V candidate screenshot) as [[m [cx cy]]|] eqn:Hpeak.
    + destruct (score_ge m c) eqn:Hc.
      * cbn [option_map fst hit_point].
        rewrite (score_ge_mono m c low) by (try assumption; apply Hlow; now left).
        reflexivity.
      * cbn [option_map fst]. apply IH.
        intros c' Hc'. apply Hlow. now right.
    + cbn [option_map fst]. apply IH.
      intros c' Hc'. apply Hlow. now right.
Qed.
End ThresholdFacts.

(** C10: for every stored template and every frame, the loop over the
    four descending thresholds accepts exactly when one call at the
    lowest threshold 0.45 accepts, and returns the same point. *)
Theorem template_loop_equals_lowest_threshold
    (V : Cascade.Vision) (attr candidate : string) (screenshot : Image) :
  fst (Cascade.template_loop V attr candidate screenshot Cascade.confs)
  = option_map Cascade.hit_point
      (Cascade._cv2_template_match V candidate screenshot
         Cascade.TEMPLATE_CONF_VERY_RELAXED).
Proof.
  change Cascade.confs
    with ([Cascade.TEMPLATE_CONF_HIGH; Cascade.TEMPLATE_CONF_DEFAULT;
           Cascade.TEMPLATE_CONF_RELAXED] ++ [Cascade.TEMPLATE_CONF_VERY_RELAXED]).
  apply template_loop_gate.
  intros c Hc. apply very_relaxed_lowest.
  unfold Cascade.confs. simpl in *. tauto.
Qed.

Section SkipFacts.
Import Cascade.
Variable V : Vision.
Variable shot : Image.
Variable event : Event.
Variable script_dir : string.














End SkipFacts.



(** ** Action executor *)

Section ExecutorFacts.
Import Executor.
Context {W : Type}.
Variable P : Platform W.

Lemma attempts_app (l1 l2 : list LogEntry) :
  attempts (l1 ++ l2) = attempts l1 ++ attempts l2.
Proof. apply omap_app. Qed.

Lemma clicked_app (l1 l2 : list LogEntry) :
  clicked (l1 ++ l2) = clicked l1 ++ clicked l2.
Proof. apply omap_app. Qed.

(** One [try] block on the observed platform: it never raises, it adds
    one attempt to the log, and a click that returned exactly when the
    block returned. *)
Lemma try_click_logged (p : Point) (w : W) (log : list LogEntry) :
  exists es,
    try_click (logged P) p (w, log)
    = (Ok (click_ok P p w), (snd (click_at P p w), log ++ es))
    /\ attempts es = [p]
    /\ clicked es = if click_ok P p w then [p] else [].
Proof.
  destruct p as [px py].
  unfold try_click, try_except, click_ok, click_at, bind, ret, sleep.
  cbn [logged gui_moveTo gui_click time_sleep fst snd].
  unfold log_call.
  destruct (gui_moveTo P px py w) as [[[]|] w1] eqn:Hmove;
    cbn [is_ok fst snd].
  - destruct (gui_click P px py w1) as [[[]|] w2] eqn:Hclick;
      cbn [is_ok fst snd].
    + eexists. rewrite <- !app_assoc. split; [reflexivity |].
      split; reflexivity.
    + eexists. rewrite <- !app_assoc. split; [reflexivity |].
      split; reflexivity.
  - eexists. split; [reflexivity |]. split; reflexivity.
Qed.

(** The loop on the observed platform stops at the first success. *)
Lemma click_first_logged (pts : list Point) :
  forall (w : W) (log : list LogEntry),
  exists b w' es,
    click_first (logged P) pts (w, log) = (Ok b, (w', log ++ es))
    /\ stops_at_first_success pts b es.
Proof.
  induction pts as [|p pts IH]; intros w log.
  - exists false, w, []. rewrite app_nil_r. split; [reflexivity |].
    split; reflexivity.
  - cbn [click_first]. unfold bind at 1.
    destruct (try_click_logged p w log) as (es & -> & Hatt & Hclk).
    destruct (click_ok P p w).
    + exists true, (snd (click_at P p w)), es. split; [reflexivity |].
      exists [], p, pts. repeat split; assumption.
    + destruct (IH (snd (click_at P p w)) (log ++ es))
        as (b & w' & es' & Hrun & Hstop).
      exists b, w', (es ++ es'). rewrite app_assoc. split; [exact Hrun |].
      destruct b; cbn [stops_at_first_success] in *.
      * destruct Hstop as (before & q & after & -> & Hatt' & Hclk').
        exists (p :: before), q, after.
        rewrite attempts_app, clicked_app, Hatt, Hclk, Hatt', Hclk'.
        repeat split.
      * destruct Hstop as [Hatt' Hclk'].
        rewrite attempts_app, clicked_app, Hatt, Hclk, Hatt', Hclk'.
        split; reflexivity.
Qed.

Lemma click_first_app {W'} (P' : Platform W') (l1 l2 : list Point) (s : W') :
  click_first P' (l1 ++ l2) s
  = (ok <- click_first P' l1 ;;
     if ok : bool then ret true else click_first P' l2) s.
Proof.
  revert s. induction l1 as [|p l1 IH]; intros s; [reflexivity |].
  cbn [app click_first]. unfold bind in *.
  destruct (try_click P' p s) as [[[|]|] s1]; try reflexivity.
  apply IH.
Qed.

(** The three stages are one loop over [click_schedule]. *)
Lemma intelligent_click_is_click_first {W'} (P' : Platform W')
    (x y max_radius : Z) (s : W') :
  _intelligent_click P' x y max_radius s
  = click_first P' (click_schedule x y max_radius) s.
Proof.
  unfold _intelligent_click, click_schedule, steps.
  change (r ← [12; 18; max_radius]; map (offset x y) (grid r))
    with (map (offset x y) (grid 12)
          ++ map (offset x y) (grid 18)
          ++ map (offset x y) (grid max_radius) ++ []).
  rewrite app_nil_r.
  cbn [click_first]. unfold bind.
  destruct (try_click P' (x, y) s) as [[[|]|] s1]; try reflexivity.
  rewrite click_first_app. unfold bind.
  destruct (click_first P' (map (offset x y) (grid 8)) s1) as [[[|]|] s2];
    try reflexivity.
  destruct (click_first P' _ s2) as [[[|]|] s3]; reflexivity.
Qed.

Lemma try_click_plain (p : Point) (w : W) :
  try_click P p w = (Ok (click_ok P p w), snd (click_at P p w)).
Proof.
  unfold try_click, try_except, click_ok, bind, ret.
  destruct (click_at P p w) as [[[]|] w1]; reflexivity.
Qed.

(** Observing the platform changes neither the outcome nor the world. *)
Lemma click_first_observed (pts : list Point) :
  forall (w : W) (log : list LogEntry),
  exists es,
    click_first (logged P) pts (w, log)
    = (fst (click_first P pts w), (snd (click_first P pts w), log ++ es)).
Proof.
  induction pts as [|p pts IH]; intros w log.
  - exists []. now rewrite app_nil_r.
  - cbn [click_first]. unfold bind.
    destruct (try_click_logged p w log) as (es & -> & _ & _).
    rewrite try_click_plain.
    destruct (click_ok P p w).
    + now exists es.
    + destruct (IH (snd (click_at P p w)) (log ++ es)) as (es' & ->).
      exists (es ++ es'). now rewrite app_assoc.
Qed.

Lemma intelligent_click_observed (x y max_radius : Z) (w : W) (b : bool)
    (w' : W) (log : list LogEntry) :
  _intelligent_click (logged P) x y max_radius (w, []) = (Ok b, (w', log)) ->
  _intelligent_click P x y max_radius w = (Ok b, w').
Proof.
  rewrite !intelligent_click_is_click_first.
  destruct (click_first_observed (click_schedule x y max_radius) w [])
    as (es & ->).
  destruct (click_first P (click_schedule x y max_radius) w) as [r w1].
  cbn [fst snd]. congruence.
Qed.
End ExecutorFacts.

Section RetryFacts.
Import Executor.
Context {W : Type}.
Variable P : Platform W.

Lemma click_first_logged_all_fail (pts : list Point) :
  (forall p w, In p pts -> click_ok P p w = false) ->
  forall (w : W) (log : list LogEntry),
  exists w' es,
    click_first (logged P) pts (w, log) = (Ok false, (w', log ++ es))
    /\ attempts es = pts /\ clicked es = [].
Proof.
  induction pts as [|p pts IH]; intros Hfail w log.
  - exists w, []. rewrite app_nil_r. repeat split.
  - cbn [click_first]. unfold bind at 1.
    destruct (try_click_logged P p w log) as (es & -> & Hatt & Hclk).
    rewrite (Hfail p w) in * by now left.
    destruct (IH (fun q w0 Hq => Hfail q w0 (or_intror Hq))
                (snd (click_at P p w)) (log ++ es))
      as (w' & es' & Hrun & Hatt' & Hclk').
    exists w', (es ++ es'). rewrite app_assoc. split; [exact Hrun |].
    rewrite attempts_app, clicked_app, Hatt, Hclk, Hatt', Hclk'.
    split; reflexivity.
Qed.

Lemma click_first_logged_some_ok (pts : list Point) :
  (exists p, In p pts /\ forall w, click_ok P p w = true) ->
  forall (w : W) (log : list LogEntry),
  exists w' es,
    click_first (logged P) pts (w, log) = (Ok true, (w', log ++ es))
    /\ exists before p after,
         pts = before ++ p :: after
         /\ attempts es = before ++ [p] /\ clicked es = [p].
Proof.
  induction pts as [|p pts IH]; intros (q & Hq & Hok) w log;
    [destruct Hq |].
  cbn [click_first]. unfold bind at 1.
  destruct (try_click_logged P p w log) as (es & -> & Hatt & Hclk).
  destruct (click_ok P p w) eqn:Hp.
  - exists (snd (click_at P p w)), es. split; [reflexivity |].
    exists [], p, pts. repeat split; assumption.
  - assert (Hq' : In q pts).
    { destruct Hq as [->|Hq]; [|exact Hq]. rewrite Hok in Hp. discriminate. }
    destruct (IH (ex_intro _ q (conj Hq' Hok))
                (snd (click_at P p w)) (log ++ es))
      as (w' & es' & Hrun & before & p' & after & -> & Hatt' & Hclk').
    exists w', (es ++ es'). rewrite app_assoc. split; [exact Hrun |].
    exists (p :: before), p', after.
    rewrite attempts_app, clicked_app, Hatt, Hclk, Hatt', Hclk'.
    repeat split.
Qed.
End RetryFacts.

(** C4, as stated, fails: on a platform where every pointer call raises,
    the attempts after the exact point (100, 100) and before radius 12
    are nine, and the fifth of them is the centre (100, 100) again; the
    run makes 37 attempts, one more than the schedule with the centre
    left out. *)
Lemma small_grid_retries_centre :
  let run :=
    Executor._intelligent_click
      (logged (Demo.pointer_platform (fun _ => false))) 100 100 24 (tt, []) in
  fst run = Ok false
  /\ take 10 (Executor.attempts (snd (snd run)))
     = [ (100, 100);
         (92, 92); (92, 100); (92, 108);
         (100, 92); (100, 100); (100, 108);
         (108, 92); (108, 100); (108, 108) ]
  /\ take 3 (drop 10 (Executor.attempts (snd (snd run))))
     = [ (88, 88); (88, 100); (88, 112) ]
  /\ length (Executor.attempts (snd (snd run))) = 37%nat
  /\ length (Executor.spec_click_schedule 100 100 24) = 36%nat
  /\ Executor.attempts (snd (snd run))
     <> Executor.spec_click_schedule 100 100 24.
Proof.
  cbv zeta. repeat split; try (vm_compute; reflexivity).
  vm_compute. discriminate.
Qed.

(** C4, amended: [_intelligent_click] never raises; it tries the exact
    point, then the nine points of the 8 px grid (the centre among them),
    then the nine points of the grid at each of the radii 12, 18 and
    [max_radius], in that order, and stops at the first attempt that
    succeeds: with result [True] the last attempt is the only click that
    returned, with result [False] all 37 points were tried. *)
Theorem intelligent_click_schedule
    {W : Type} (P : Platform W) (x y max_radius : Z) (w : W) :
  (exists b w' log,
     Executor._intelligent_click P x y max_radius w = (Ok b, w')
     /\ Executor._intelligent_click (logged P) x y max_radius (w, [])
        = (Ok b, (w', log))
     /\ Executor.stops_at_first_success
          (Executor.click_schedule x y max_radius) b log)
  /\ Executor.click_schedule x y max_radius
     = (x, y)
       :: map (Executor.offset x y)
            ([ (-8, -8); (-8, 0); (-8, 8);
               (0, -8); (0, 0); (0, 8);
               (8, -8); (8, 0); (8, 8) ]
             ++ Executor.grid 12 ++ Executor.grid 18
             ++ Executor.grid max_radius)
  /\ (forall r, Executor.grid r
                = [ (- r, - r); (- r, 0); (- r, r);
                    (0, - r); (0, 0); (0, r);
                    (r, - r); (r, 0); (r, r) ]).
Proof.
  split; [|split].
  - destruct (click_first_logged P (Executor.click_schedule x y max_radius) w [])
      as (b & w' & es & Hrun & Hstop).
    rewrite <- intelligent_click_is_click_first in Hrun.
    exists b, w', es. split; [|split; [exact Hrun | exact Hstop]].
    now apply (intelligent_click_observed P x y max_radius w b w' es).
  - unfold Executor.click_schedule. rewrite !map_app. reflexivity.
  - reflexivity.
Qed.

(** C5: [_intelligent_click] returns a boolean on every platform (it
    never raises).  When the exact point and every point of the 8 px grid
    fail and some point of the grid at radius 12 succeeds, it returns
    [True]; its attempts are the exact point, the nine points of the 8 px
    grid and the points at radius 12 up to the first that succeeds, so no
    attempt is made at radius 18 or beyond: every attempted point is
    within 12 px of the target on both axes and there are at most 19
    attempts. *)
Theorem click_stops_at_radius_12
    {W : Type} (P : Platform W) (x y max_radius : Z) (w : W) :
  (exists b w', Executor._intelligent_click P x y max_radius w = (Ok b, w'))
  /\ ((forall w0, Executor.click_ok P (x, y) w0 = false) ->
      (forall d w0, In d Executor.steps ->
                    Executor.click_ok P (Executor.offset x y d) w0 = false) ->
      (exists d, In d (Executor.grid 12)
                 /\ forall w0,
                      Executor.click_ok P (Executor.offset x y d) w0 = true) ->
      exists w' log,
        Executor._intelligent_click P x y max_radius w = (Ok true, w')
        /\ Executor._intelligent_click (logged P) x y max_radius (w, [])
           = (Ok true, (w', log))
        /\ (exists before p after,
              map (Executor.offset x y) (Executor.grid 12)
              = before ++ p :: after
              /\ Executor.attempts log
                 = (x, y) :: map (Executor.offset x y) Executor.steps
                   ++ before ++ [p]
              /\ Executor.clicked log = [p])
        /\ (forall q, In q (Executor.attempts log) ->
                      Z.abs (fst q - x) <= 12 /\ Z.abs (snd q - y) <= 12)
        /\ (length (Executor.attempts log) <= 19)%nat).
Proof.
  split.
  { destruct (click_first_logged P (Executor.click_schedule x y max_radius) w [])
      as (b & w' & es & Hrun & _).
    rewrite <- intelligent_click_is_click_first in Hrun.
    exists b, w'.
    now apply (intelligent_click_observed P x y max_radius w b w' es). }
  intros H0 H8 (d & Hd & Hok).
  assert (Hlogged : exists w' log,
    Executor._intelligent_click (logged P) x y max_radius (w, [])
    = (Ok true, (w', log))
    /\ (exists before p after,
          map (Executor.offset x y) (Executor.grid 12) = before ++ p :: after
          /\ Executor.attempts log
             = (x, y) :: map (Executor.offset x y) Executor.steps
               ++ before ++ [p]
          /\ Executor.clicked log = [p])).
  { rewrite intelligent_click_is_click_first.
    change (Executor.click_schedule x y max_radius)
      with (((x, y) :: map (Executor.offset x y) Executor.steps)
            ++ (map (Executor.offset x y) (Executor.grid 12)
                ++ (map (Executor.offset x y) (Executor.grid 18)
                    ++ map (Executor.offset x y) (Executor.grid max_radius)))).
    rewrite click_first_app. unfold bind at 1.
    destruct (click_first_logged_all_fail P
                ((x, y) :: map (Executor.offset x y) Executor.steps))
      with (w := w) (log := @nil LogEntry)
      as (w1 & es1 & Hrun1 & Hatt1 & Hclk1).
    { intros p w0 [<-|Hp]; [apply H0 |].
      apply in_map_iff in Hp. destruct Hp as (d0 & <- & Hd0). now apply H8. }
    rewrite Hrun1. rewrite click_first_app. unfold bind at 1.
    destruct (click_first_logged_some_ok P
                (map (Executor.offset x y) (Executor.grid 12)))
      with (w := w1) (log := [] ++ es1)
      as (w2 & es2 & Hrun2 & before & p & after & Hsplit & Hatt2 & Hclk2).
    { exists (Executor.offset x y d). split; [now apply in_map | exact Hok]. }
    rewrite Hrun2. unfold ret.
    exists w2, (([] ++ es1) ++ es2). split; [reflexivity |].
    exists before, p, after. split; [exact Hsplit |].
    rewrite app_nil_l, attempts_app, clicked_app, Hatt1, Hatt2, Hclk1, Hclk2.
    split; reflexivity. }
  destruct Hlogged as (w' & log & Hrun & before & p & after & Hsplit & Hatt & Hclk).
  exists w', log.
  split; [now apply (intelligent_click_observed P x y max_radius w true w' log) |].
  split; [exact Hrun |].
  split; [exists before, p, after; repeat split; assumption |].
  split.
  - intros q Hq.
    assert (Hin : In q ((x, y) :: map (Executor.offset x y) Executor.steps
                        ++ map (Executor.offset x y) (Executor.grid 12))).
    { revert Hq. rewrite Hatt, Hsplit.
      rewrite !app_comm_cons, !in_app_iff. simpl. tauto. }
    clear - Hin.
    unfold Executor.steps, Executor.offset in Hin. simpl in Hin.
    repeat (destruct Hin as [<-|Hin]; [simpl; lia |]). destruct Hin.
  - rewrite Hatt.
    assert (Hlen : length (before ++ p :: after) = 9%nat)
      by (rewrite <- Hsplit; reflexivity).
    rewrite length_app in Hlen. simpl in Hlen.
    cbn [length]. rewrite !length_app, length_map. cbn [length].
    change (length Executor.steps) with 9%nat. lia.
Qed.

Lemma click_stops_at_radius_12_witness :
  exists log,
    Executor._intelligent_click
      (logged (Demo.pointer_platform
                 (fun p => (fst p =? 112) && (snd p =? 100))))
      100 100 24 (tt, [])
    = (Ok true, (tt, log))
    /\ (length (Executor.attempts log) <= 19)%nat.
Proof.
  destruct (proj2 (click_stops_at_radius_12
              (Demo.pointer_platform
                 (fun p => (fst p =? 112) && (snd p =? 100)))
              100 100 24 tt)) as ([] & log & _ & Hrun & _ & _ & Hlen).
  - intros []. reflexivity.
  - intros d [] Hd. unfold Executor.steps in Hd. simpl in Hd.
    repeat (destruct Hd as [<-|Hd]; [reflexivity |]). destruct Hd.
  - exists (12, 0). split; [vm_compute; tauto | intros []; reflexivity].
  - exists log. split; [exact Hrun | exact Hlen].
Defined.

(** ** Replay loop *)

Section ReplayFacts.
Import Replay.
Context {W : Type}.
Variable P : Platform W.
Variable V : Cascade.Vision.
Variable script_dir : string.
Variables rec_win win_rect : Geometry.Rect.

Local Abbreviation body := (replay_event P V script_dir rec_win win_rect).
Local Abbreviation loop := (replay_loop P V script_dir rec_win win_rect).
Local Abbreviation bodies := (run_events P V script_dir rec_win win_rect).

(** One iteration adds at most one to the two counters together, and
    takes nothing away. *)
Lemma replay_event_counts (st : Locals) (event : Event) (w : W) :
  let st' := fst (body st event w) in
  success st <= success st' /\ fail st <= fail st'
  /\ success st' + fail st' <= success st + fail st + 1.
Proof.
  unfold replay_event. cbv zeta.
  destruct (dispatch P V script_dir rec_win win_rect event _) as [[[| |]|] w2];
    cbn [fst count success fail]; lia.
Qed.

Lemma run_events_counts (events : list Event) :
  forall (st : Locals) (w : W),
  let st' := fst (bodies events st w) in
  success st <= success st' /\ fail st <= fail st'
  /\ success st' + fail st' <= success st + fail st + Z.of_nat (length events).
Proof.
  induction events as [|event rest IH]; intros st w; cbn [run_events].
  - cbn [fst length]. lia.
  - pose proof (replay_event_counts st event w) as H1. cbv zeta in H1.
    destruct (body st event w) as [st1 w1]. cbn [fst] in H1.
    specialize (IH st1 w1). cbv zeta in IH |- *.
    cbn [length]. lia.
Qed.

(** The loop runs the iterations of the first [n] events, where [n] is
    the position of the first abort check that finds the flag set. *)
Lemma replay_loop_stops_at_check (events : list Event) :
  forall (st : Locals) (w : W),
  exists n : nat,
    (n <= length events)%nat
    /\ loop events st w = bodies (take n events) st w
    /\ ((n < length events)%nat ->
        abort_is_set P (snd (bodies (take n events) st w)) = true)
    /\ (forall k, (k < n)%nat ->
                  abort_is_set P (snd (bodies (take k events) st w)) = false).
Proof.
  induction events as [|event rest IH]; intros st w.
  - exists 0%nat. cbn. repeat split; intros; lia.
  - cbn [replay_loop]. destruct (abort_is_set P w) eqn:Hflag.
    + exists 0%nat. cbn. repeat split; intros; first [lia | assumption].
    + destruct (body st event w) as [st1 w1] eqn:Hbody.
      destruct (IH st1 w1) as (n & Hn & Hrun & Hstop & Hbefore).
      exists (S n). cbn [take run_events length]. rewrite Hbody.
      repeat split.
      * lia.
      * exact Hrun.
      * intros Hlt. apply Hstop. lia.
      * intros [|k] Hk; cbn [take run_events]; [exact Hflag |].
        rewrite Hbody. apply Hbefore. lia.
Qed.
End ReplayFacts.

(** C9, as stated, fails: the flag is read once, at the top of an
    iteration.  When the hotkey is pressed while the loop sleeps before
    the first of two clicks, that click's pointer move and click are made
    with the flag already set, and the reported counters include it; the
    second click is not made. *)
Lemma action_executed_after_abort_set :
  Replay.inputs_after_abort (snd (snd Replay.abort_during_wait))
  = [AMoveTo 92 136; AClick 92 136]
  /\ fst Replay.abort_during_wait = (Some (1, 0), true)
  /\ Executor.attempts (snd (snd Replay.abort_during_wait)) = [(92, 136)]
  /\ Demo.flag (fst (snd Replay.abort_during_wait)) = true.
Proof.
  repeat split; vm_compute; reflexivity.
Qed.

(** C9, amended: the abort flag is read once at the top of each
    iteration, before the wait.  The loop stops at the first such check
    that finds the flag set: it has then run the iterations of exactly
    the [n] events before that check and of no later event, the world is
    as the [n]-th iteration left it, and the counters are those of these
    [n] iterations, so [success + fail] grew by at most [n].  A flag set
    after an iteration's check does not stop that iteration's action. *)
Theorem replay_stops_at_first_abort_check
    {W : Type} (P : Platform W) (V : Cascade.Vision) (script_dir : string)
    (rec_win win_rect : Geometry.Rect)
    (events : list Event) (st : Replay.Locals) (w : W) :
  exists n : nat,
    (n <= length events)%nat
    /\ Replay.replay_loop P V script_dir rec_win win_rect events st w
       = Replay.run_events P V script_dir rec_win win_rect (take n events) st w
    /\ ((n < length events)%nat ->
        abort_is_set P
          (snd (Replay.replay_loop P V script_dir rec_win win_rect events st w))
        = true)
    /\ (forall k, (k < n)%nat ->
          abort_is_set P
            (snd (Replay.run_events P V script_dir rec_win win_rect
                    (take k events) st w)) = false)
    /\ (let st' :=
          fst (Replay.replay_loop P V script_dir rec_win win_rect events st w) in
        Replay.success st <= Replay.success st'
        /\ Replay.fail st <= Replay.fail st'
        /\ Replay.success st' + Replay.fail st'
           <= Replay.success st + Replay.fail st + Z.of_nat n).
Proof.
  destruct (replay_loop_stops_at_check P V script_dir rec_win win_rect events st w)
    as (n & Hn & Hrun & Hstop & Hbefore).
  exists n. rewrite Hrun.
  split; [exact Hn |]. split; [reflexivity |].
  split; [exact Hstop |]. split; [exact Hbefore |].
  pose proof (run_events_counts P V script_dir rec_win win_rect
                (take n events) st w) as Hc.
  cbv zeta in Hc |- *. rewrite length_take in Hc. lia.
Qed.

Lemma replay_stops_at_first_abort_check_witness :
  exists n : nat,
    (n <= 2)%nat
    /\ (let st' :=
          fst (Replay.replay_loop (logged Demo.hotkey_platform) Demo.no_vision
                 "rec" Demo.screen Demo.window Replay.two_clicks Replay.start
                 Replay.hotkey_pending) in
        Replay.success st' + Replay.fail st' <= Z.of_nat n).
Proof.
  destruct (replay_stops_at_first_abort_check
              (logged Demo.hotkey_platform) Demo.no_vision "rec"
              Demo.screen Demo.window Replay.two_clicks Replay.start
              Replay.hotkey_pending)
    as (n & Hn & _ & _ & _ & Hc).
  exists n. split; [exact Hn |].
  cbv zeta in Hc |- *. destruct Hc as (_ & _ & Hc). exact Hc.
Defined.

(** * Further properties of the engine *)

(** ** Matching cascade: template and text matchers *)

Section MatcherFacts.
Import Cascade.
Variable V : Vision.

Lemma score_ge_le (max_val c : Q) : score_ge max_val c = true <-> (c <= max_val)%Q.
Proof. unfold score_ge. apply Qle_bool_iff. Qed.

(** [target in txt] for a non-empty [target]: [target] is the slice of
    [txt] at some position. *)
Lemma str_contains_substring (target txt : string) :
  target <> EmptyString ->
  (str_contains target txt = true
   <-> exists n, substring n (String.length target) txt = target).
Proof.
  intros Hne. unfold str_contains.
  destruct (String.index 0 target txt) as [m|] eqn:Hidx.
  - split; [intros _ | reflexivity].
    exists m. now apply (index_correct1 0).
  - split; [discriminate |].
    intros [n Hn]. exfalso.
    apply (index_correct3 0 n target txt Hidx Hne); [lia | exact Hn].
Qed.

(** The scan returns the first row whose text is not empty and holds
    the target. *)
Lemma ocr_scan_first (target : string) (rows : list OcrRow) (h : Hit) :
  ocr_scan target rows = Some h
  <-> exists before r after,
        rows = before ++ r :: after
        /\ (forall q, In q before ->
              row_text q = EmptyString
              \/ str_contains target (row_text q) = false)
        /\ row_text r <> EmptyString
        /\ str_contains target (row_text r) = true
        /\ h = (row_left r + row_width r / 2,
                row_top r + row_height r / 2,
                if String.eqb (row_text r) target then 0.7%Q else 0.6%Q).
Proof.
  induction rows as [|r0 rows IH]; simpl.
  - split; [discriminate |].
    intros (before & r & after & Hrows & _). now destruct before.
  - destruct (str_truthy (row_text r0)) eqn:Ht; cbn [negb].
    + destruct (str_contains target (row_text r0)) eqn:Hc.
      * split.
        -- intros [= <-]. exists [], r0, rows. repeat split; try assumption.
           ++ intros q [].
           ++ now apply str_truthy_true.
        -- intros (before & r & after & Hrows & Hbefore & _ & _ & ->).
           destruct before as [|q before]; simpl in Hrows.
           ++ now injection Hrows as <- <-.
           ++ injection Hrows as <- _. exfalso.
              destruct (Hbefore r0 (or_introl eq_refl)) as [He|He].
              ** rewrite He in Ht. discriminate.
              ** congruence.
      * rewrite IH. split.
        -- intros (before & r & after & -> & Hbefore & rest).
           exists (r0 :: before), r, after. split; [reflexivity |].
           split; [|exact rest].
           intros q [<-|Hq]; [now right | now apply Hbefore].
        -- intros (before & r & after & Hrows & Hbefore & Hne & Hr & Hh).
           destruct before as [|q before]; simpl in Hrows.
           ++ injection Hrows as <- <-. congruence.
           ++ injection Hrows as <- ->. exists before, r, after.
              repeat split; try assumption.
              intros q' Hq'. apply Hbefore. now right.
    + rewrite IH. split.
      * intros (before & r & after & -> & Hbefore & rest).
        exists (r0 :: before), r, after. split; [reflexivity |].
        split; [|exact rest].
        intros q [Hq|Hq]; [subst q | now apply Hbefore].
        left. destruct (row_text r0); [reflexivity | discriminate].
      * intros (before & r & after & Hrows & Hbefore & Hne & Hr & Hh).
        destruct before as [|q before]; simpl in Hrows.
        -- injection Hrows as <- <-. apply str_truthy_true in Hne. congruence.
        -- injection Hrows as <- ->. exists before, r, after.
           repeat split; try assumption.
           intros q' Hq'. apply Hbefore. now right.
Qed.
End MatcherFacts.

(** X1: a template match accepted at one confidence threshold has a peak
    score at or above that threshold, and every lower threshold accepts
    the same match at the same point with the same score. *)
Theorem cv2_template_match_threshold_monotone
    (V : Cascade.Vision) (template_path : string) (screenshot : Image)
    (c c' : Q) (hit : Cascade.Hit) :
  Cascade._cv2_template_match V template_path screenshot c = Some hit ->
  (c' <= c)%Q ->
  (c <= snd hit)%Q
  /\ Cascade._cv2_template_match V template_path screenshot c' = Some hit.
Proof.
  rewrite !cv2_template_match_gate.
  destruct (Cascade.template_peak V template_path screenshot)
    as [[m [cx cy]]|]; [|discriminate].
  destruct (Cascade.score_ge m c) eqn:Hc; [|discriminate].
  intros [= <-] Hle. cbn [snd]. split.
  - now apply score_ge_le.
  - now rewrite (score_ge_mono m c c' Hle Hc).
Qed.

Lemma cv2_template_match_threshold_monotone_witness :
  (0.85 <= 0.90)%Q
  /\ Cascade._cv2_template_match Demo.vision "medium.png" Demo.frame 0.62
     = Some (200, 180, 0.90%Q).
Proof.
  apply (cv2_template_match_threshold_monotone Demo.vision "medium.png"
           Demo.frame 0.85 0.62 (200, 180, 0.90%Q)).
  - reflexivity.
  - unfold Qle. simpl. lia.
Defined.

(** X2: [_ocr_match] returns a hit exactly when the text back end is
    installed, the target is not empty, the recognition returned rows,
    and some row with a non-empty text holds the target as a slice; the
    hit is the centre of the first such row, with confidence 0.7 when the
    row's text equals the target and 0.6 otherwise. *)
Theorem ocr_match_first_containing_row
    (V : Cascade.Vision) (target : string) (screenshot : Image)
    (hit : Cascade.Hit) :
  Cascade._ocr_match V target screenshot = Some hit
  <-> Cascade.OCR_AVAILABLE V = true
      /\ target <> EmptyString
      /\ exists before r after,
           Cascade.ocr_data V screenshot = Ok (before ++ r :: after)
           /\ (forall q, In q before ->
                 Cascade.row_text q = EmptyString
                 \/ ~ exists n, substring n (String.length target)
                                  (Cascade.row_text q) = target)
           /\ Cascade.row_text r <> EmptyString
           /\ (exists n, substring n (String.length target)
                           (Cascade.row_text r) = target)
           /\ hit = (Cascade.row_left r + Cascade.row_width r / 2,
                     Cascade.row_top r + Cascade.row_height r / 2,
                     if String.eqb (Cascade.row_text r) target
                     then 0.7%Q else 0.6%Q).
Proof.
  unfold Cascade._ocr_match.
  destruct (Cascade.OCR_AVAILABLE V); cbn [negb orb].
  2:{ split; [discriminate | intros [? _]; discriminate]. }
  destruct (str_truthy target) eqn:Ht; cbn [negb].
  2:{ split; [discriminate |]. intros (_ & Hne & _).
      apply str_truthy_true in Hne. congruence. }
  apply str_truthy_true in Ht.
  destruct (Cascade.ocr_data V screenshot) as [rows|].
  2:{ split; [discriminate |]. intros (_ & _ & ? & ? & ? & ? & _). discriminate. }
  rewrite ocr_scan_first. split.
  - intros (before & r & after & -> & Hbefore & Hne & Hr & ->).
    split; [reflexivity |]. split; [exact Ht |].
    exists before, r, after. split; [reflexivity |].
    split; [|split; [exact Hne | split; [|reflexivity]]].
    + intros q Hq. destruct (Hbefore q Hq) as [He|He]; [now left | right].
      rewrite <- (str_contains_substring _ _ Ht). congruence.
    + now apply str_contains_substring.
  - intros (_ & _ & before & r & after & [= ->] & Hbefore & Hne & Hr & ->).
    exists before, r, after. split; [reflexivity |].
    split; [|split; [exact Hne | split; [|reflexivity]]].
    + intros q Hq. destruct (Hbefore q Hq) as [He|He]; [now left | right].
      apply not_true_is_false. now rewrite (str_contains_substring _ _ Ht).
    + now apply str_contains_substring.
Qed.

(** ** Matching cascade: what a run returns and what it tries *)

Section RunFacts.
Import Cascade.
Variable V : Vision.
Variable shot : Image.

Lemma first_hit_some (l : list Attempt) (p : Point) :
  fst (first_hit V shot l) = Some p ->
  exists before a after,
    l = before ++ a :: after
    /\ snd (first_hit V shot l) = before ++ [a]
    /\ run_attempt V shot a = Some p
    /\ forall b, In b before -> run_attempt V shot b = None.
Proof.
  induction l as [|a l IH]; simpl; [discriminate |].
  destruct (run_attempt V shot a) as [q|] eqn:Ha.
  - simpl. intros [= ->]. exists [], a, l. repeat split; try assumption.
    intros b [].
  - destruct (first_hit V shot l) as [r tr]. simpl in *. intros Hr.
    destruct (IH Hr) as (before & a' & after & -> & -> & Ha' & Hbefore).
    exists (a :: before), a', after. repeat split; try assumption.
    intros b [<-|Hb]; [exact Ha | now apply Hbefore].
Qed.

Lemma first_hit_none (l : list Attempt) :
  fst (first_hit V shot l) = None ->
  forall a, In a l -> run_attempt V shot a = None.
Proof.
  induction l as [|a l IH]; simpl; [intros _ b [] |].
  destruct (run_attempt V shot a) as [q|] eqn:Ha; [discriminate |].
  destruct (first_hit V shot l) as [r tr]. simpl in *.
  intros Hr b [<-|Hb]; [exact Ha | now apply IH].
Qed.

Lemma first_hit_trace_length (l : list Attempt) :
  (length (snd (first_hit V shot l)) <= length l)%nat.
Proof.
  induction l as [|a l IH]; simpl; [lia |].
  destruct (run_attempt V shot a); simpl; [lia |].
  destruct (first_hit V shot l) as [r tr]. simpl in *. lia.
Qed.

Lemma resolve_candidate_exists (script_dir pth candidate : string) :
  resolve_candidate V script_dir pth = Some candidate ->
  path_exists V candidate = true.
Proof.
  unfold resolve_candidate.
  destruct (path_exists V pth) eqn:E1; [congruence |]. cbv zeta.
  destruct (path_exists V (script_dir +:+ "/images/" +:+ path_name V pth))
    eqn:E2; [congruence | discriminate].
Qed.

Lemma usable_stored (event : Event) (script_dir attr candidate : string) :
  usable V event script_dir attr = Some candidate ->
  path_exists V candidate = true
  /\ exists pth, ev_str event !! attr = Some pth /\ pth <> EmptyString.
Proof.
  unfold usable. destruct (ev_str event !! attr) as [pth|]; [|discriminate].
  destruct (str_truthy pth) eqn:Ht; cbn [negb]; [|discriminate].
  intros H. split; [now apply (resolve_candidate_exists script_dir pth) |].
  exists pth. split; [reflexivity | now apply str_truthy_true].
Qed.

Lemma schedule_length (event : Event) (script_dir : string) :
  (length (schedule V event script_dir) <= 26)%nat.
Proof.
  unfold schedule, img_attrs. cbv zeta. rewrite length_app.
  cbn [flat_map]. rewrite !length_app.
  assert (H : forall attr,
    (length match usable V event script_dir attr with
            | Some c => attr_schedule attr c
            | None => []
            end <= 5)%nat).
  { intros attr. destruct (usable V event script_dir attr); simpl; lia. }
  pose proof (H "img_small"). pose proof (H "img_medium").
  pose proof (H "img_large"). pose proof (H "img_micro").
  pose proof (H "img_context").
  destruct (str_truthy _); simpl; lia.
Qed.
End RunFacts.

(** X3: the point the cascade returns is the point of the last attempt it
    made, which is the first attempt of the schedule that hits: every
    attempt before it failed.  The cascade returns absent exactly when
    every scheduled attempt fails, and it has then made all of them. *)
Theorem cascade_returns_first_scheduled_hit
    (V : Cascade.Vision) (shot : Image) (event : Event) (script_dir : string) :
  let run := Cascade._try_find_click_target V (Some shot) event script_dir in
  (forall p, fst run = Some p ->
     exists before a after,
       Cascade.schedule V event script_dir = before ++ a :: after
       /\ snd run = before ++ [a]
       /\ Cascade.run_attempt V shot a = Some p
       /\ forall b, In b before -> Cascade.run_attempt V shot b = None)
  /\ (fst run = None
      <-> forall a, In a (Cascade.schedule V event script_dir) ->
                    Cascade.run_attempt V shot a = None)
  /\ (fst run = None -> snd run = Cascade.schedule V event script_dir).
Proof.
  cbv zeta. rewrite try_find_click_target_first_hit.
  split; [|split].
  - intros p Hp. now apply first_hit_some.
  - split; [apply first_hit_none |].
    intros Hall. now rewrite first_hit_all_miss.
  - intros Hnone. rewrite first_hit_all_miss; [reflexivity |].
    now apply first_hit_none.
Qed.

Lemma cascade_returns_first_scheduled_hit_witness :
  exists before a after,
    Cascade.schedule Demo.vision Demo.two_regions "rec" = before ++ a :: after
    /\ Cascade.run_attempt Demo.vision Demo.frame a = Some (11, 22)
    /\ forall b, In b before -> Cascade.run_attempt Demo.vision Demo.frame b = None.
Proof.
  destruct (proj1 (cascade_returns_first_scheduled_hit Demo.vision Demo.frame
                     Demo.two_regions "rec") (11, 22) eq_refl)
    as (before & a & after & Hs & _ & Ha & Hb).
  exists before, a, after. repeat split; assumption.
Defined.

(** X4: the cascade only tries what is stored and present: every template
    or feature attempt is on one of the five region attributes, on a file
    that exists, for a non-empty stored path, and template attempts use
    one of the four thresholds; a text attempt is on the stored,
    non-empty text.  A run makes at most 26 attempts. *)
Theorem cascade_attempts_are_stored_and_present
    (V : Cascade.Vision) (screenshot : option Image) (event : Event)
    (script_dir : string) :
  let run := Cascade._try_find_click_target V screenshot event script_dir in
  (forall a, In a (snd run) ->
     match a with
     | Cascade.TryTemplate attr path conf =>
       In attr Cascade.img_attrs /\ In conf Cascade.confs
       /\ Cascade.path_exists V path = true
       /\ exists pth, ev_str event !! attr = Some pth /\ pth <> EmptyString
     | Cascade.TryOrb attr path =>
       In attr Cascade.img_attrs
       /\ Cascade.path_exists V path = true
       /\ exists pth, ev_str event !! attr = Some pth /\ pth <> EmptyString
     | Cascade.TryOcr text =>
       ev_str event !! "ocr_text" = Some text /\ text <> EmptyString
     end)
  /\ (length (snd run) <= 26)%nat.
Proof.
  cbv zeta. destruct screenshot as [shot|].
  2:{ simpl. split; [intros a [] | lia]. }
  rewrite try_find_click_target_first_hit. split.
  - intros a Ha. apply first_hit_trace_incl in Ha.
    unfold Cascade.schedule in Ha. apply in_app_or in Ha.
    destruct Ha as [Ha|Ha].
    + apply in_flat_map in Ha. destruct Ha as (attr & Hattr & Ha).
      destruct (Cascade.usable V event script_dir attr) as [c|] eqn:Hus;
        [|destruct Ha].
      destruct (usable_stored V event script_dir attr c Hus) as [Hex Hst].
      unfold Cascade.attr_schedule in Ha. apply in_app_or in Ha.
      destruct Ha as [Ha|[<-|[]]].
      * apply in_map_iff in Ha. destruct Ha as (conf & <- & Hconf).
        repeat split; assumption.
      * repeat split; assumption.
    + cbv zeta in Ha. revert Ha.
      destruct (ev_str event !! "ocr_text") as [t|] eqn:Ht;
        cbn [default from_option id].
      * destruct (str_truthy t) eqn:Htt; [|intros []].
        intros [<-|[]]. split; [reflexivity | now apply str_truthy_true].
      * intros [].
  - etransitivity; [apply first_hit_trace_length | apply schedule_length].
Qed.



(** X6: for an event that stores no region and no text (each key
    missing, null or empty), the cascade tries nothing and returns
    absent, whatever back ends are installed. *)
Theorem cascade_without_stored_context_tries_nothing
    (V : Cascade.Vision) (screenshot : option Image) (event : Event)
    (script_dir : string) :
  (forall attr, In attr Cascade.img_attrs ->
                opt_truthy (ev_str event !! attr) = false) ->
  opt_truthy (ev_str event !! "ocr_text") = false ->
  Cascade._try_find_click_target V screenshot event script_dir = Cascade.miss.
Proof.
  intros Hattrs Htext. destruct screenshot as [shot|]; [|reflexivity].
  rewrite try_find_click_target_first_hit.
  assert (Hs : Cascade.schedule V event script_dir = []); [|now rewrite Hs].
  unfold Cascade.schedule. cbv zeta.
  assert (Hus : forall attr, In attr Cascade.img_attrs ->
                  Cascade.usable V event script_dir attr = None).
  { intros attr Hin. specialize (Hattrs attr Hin). unfold Cascade.usable.
    destruct (ev_str event !! attr) as [pth|]; [|reflexivity].
    simpl in Hattrs. now rewrite Hattrs. }
  unfold Cascade.img_attrs in *. cbn [flat_map].
  rewrite !Hus by (simpl; tauto).
  destruct (ev_str event !! "ocr_text") as [t|]; cbn [default from_option id];
    simpl in Htext; [now rewrite Htext | reflexivity].
Qed.

Lemma cascade_without_stored_context_tries_nothing_witness :
  Cascade._try_find_click_target Demo.vision (Some Demo.frame)
    (Demo.click_event 1 100 100 ∅) "rec"
  = Cascade.miss.
Proof.
  apply (cascade_without_stored_context_tries_nothing Demo.vision
           (Some Demo.frame) (Demo.click_event 1 100 100 ∅) "rec").
  - unfold Cascade.img_attrs. simpl.
    intros attr [<-|[<-|[<-|[<-|[<-|[]]]]]]; reflexivity.
  - reflexivity.
Defined.

(** ** Action executor: how many clicks, how far from the target *)

Section ClickBoundsFacts.
Import Executor.

Lemma stops_at_first_success_prefix (pts : list Point) (b : bool)
    (log : list LogEntry) :
  stops_at_first_success pts b log ->
  exists after, pts = attempts log ++ after.
Proof.
  destruct b; cbn [stops_at_first_success].
  - intros (before & p & after & -> & -> & _). exists after.
    now rewrite <- app_assoc.
  - intros [-> _]. exists []. now rewrite app_nil_r.
Qed.

Lemma click_schedule_within (x y max_radius : Z) (q : Point) :
  In q (click_schedule x y max_radius) ->
  Z.abs (fst q - x) <= Z.max 18 (Z.abs max_radius)
  /\ Z.abs (snd q - y) <= Z.max 18 (Z.abs max_radius).
Proof.
  unfold click_schedule, offset. simpl.
  intros H.
  repeat (destruct H as [<-|H]; [simpl; lia |]). destruct H.
Qed.
End ClickBoundsFacts.

(** X7: when the click at the exact point succeeds, [_intelligent_click]
    returns [True] after that single attempt: no other point is tried and
    the world is the one the first attempt left. *)
Theorem exact_click_success_makes_one_attempt
    {W : Type} (P : Platform W) (x y max_radius : Z) (w : W) :
  Executor.click_ok P (x, y) w = true ->
  Executor._intelligent_click P x y max_radius w
  = (Ok true, snd (Executor.click_at P (x, y) w))
  /\ exists log,
       Executor._intelligent_click (logged P) x y max_radius (w, [])
       = (Ok true, (snd (Executor.click_at P (x, y) w), log))
       /\ Executor.attempts log = [(x, y)]
       /\ Executor.clicked log = [(x, y)].
Proof.
  intros Hok. split.
  - unfold Executor._intelligent_click, bind.
    now rewrite try_click_plain, Hok.
  - destruct (try_click_logged P (x, y) w []) as (es & Hrun & Hatt & Hclk).
    rewrite Hok in Hrun, Hclk. exists es.
    split; [|split; assumption].
    unfold Executor._intelligent_click, bind. now rewrite Hrun.
Qed.

Lemma exact_click_success_makes_one_attempt_witness :
  Executor._intelligent_click (Demo.pointer_platform (fun _ => true))
    100 100 24 tt
  = (Ok true, tt).
Proof.
  exact (proj1 (exact_click_success_makes_one_attempt
                  (Demo.pointer_platform (fun _ => true)) 100 100 24 tt
                  eq_refl)).
Defined.

(** X8: [_intelligent_click] performs at most one click that returns.  It
    returns [True] exactly when it performed one, which is then at the
    last point it tried, and [False] exactly when no click returned. *)
Theorem intelligent_click_clicks_at_most_once
    {W : Type} (P : Platform W) (x y max_radius : Z) (w : W) :
  exists b w' log,
    Executor._intelligent_click P x y max_radius w = (Ok b, w')
    /\ Executor._intelligent_click (logged P) x y max_radius (w, [])
       = (Ok b, (w', log))
    /\ (length (Executor.clicked log) <= 1)%nat
    /\ (b = true
        <-> exists p, Executor.clicked log = [p]
                      /\ last (Executor.attempts log) = Some p)
    /\ (b = false <-> Executor.clicked log = []).
Proof.
  destruct (click_first_logged P (Executor.click_schedule x y max_radius) w [])
    as (b & w' & es & Hrun & Hstop).
  rewrite <- intelligent_click_is_click_first in Hrun.
  exists b, w', es.
  split; [now apply (intelligent_click_observed P x y max_radius w b w' es) |].
  split; [exact Hrun |].
  destruct b; cbn [Executor.stops_at_first_success] in Hstop.
  - destruct Hstop as (before & p & after & _ & Hatt & Hclk).
    rewrite Hatt, Hclk. split; [simpl; lia |]. split.
    + split; [intros _ | reflexivity].
      exists p. split; [reflexivity | apply last_snoc].
    + split; discriminate.
  - destruct Hstop as [_ Hclk]. rewrite Hclk. split; [simpl; lia |]. split.
    + split; [discriminate |]. intros (p & Hp & _). discriminate.
    + split; reflexivity.
Qed.

(** X9: [_intelligent_click] makes between 1 and 37 attempts, and every
    point it tries is within [max(18, |max_radius|)] pixels of the target
    on both axes (24 with the default radius). *)
Theorem intelligent_click_stays_near_target
    {W : Type} (P : Platform W) (x y max_radius : Z) (w : W) :
  exists b w' log,
    Executor._intelligent_click (logged P) x y max_radius (w, [])
    = (Ok b, (w', log))
    /\ (1 <= length (Executor.attempts log) <= 37)%nat
    /\ forall q, In q (Executor.attempts log) ->
         Z.abs (fst q - x) <= Z.max 18 (Z.abs max_radius)
         /\ Z.abs (snd q - y) <= Z.max 18 (Z.abs max_radius).
Proof.
  destruct (click_first_logged P (Executor.click_schedule x y max_radius) w [])
    as (b & w' & es & Hrun & Hstop).
  rewrite <- intelligent_click_is_click_first in Hrun.
  exists b, w', es. split; [exact Hrun |].
  destruct (stops_at_first_success_prefix _ _ _ Hstop) as (after & Hpre).
  split; [split |].
  - destruct b; cbn [Executor.stops_at_first_success] in Hstop.
    + destruct Hstop as (before & p & _ & _ & -> & _).
      rewrite length_app. simpl. lia.
    + destruct Hstop as [-> _]. simpl. lia.
  - assert (Hlen : length (Executor.click_schedule x y max_radius) = 37%nat)
      by reflexivity.
    rewrite Hpre, length_app in Hlen. lia.
  - intros q Hq. apply (click_schedule_within x y max_radius).
    rewrite Hpre. apply in_or_app. now left.
Qed.

(** ** Replay: key events, counters, skipped events *)

Section KeyFacts.
Import Replay.

Lemma remove_all_absent (pat : string) (fuel : nat) :
  forall s, String.index 0 pat s = None -> remove_all fuel pat s = s.
Proof.
  induction fuel as [|fuel IH]; intros s Hs; [reflexivity |].
  destruct s as [|a t]; [reflexivity |].
  revert Hs. cbn [remove_all String.index].
  destruct (String.prefix pat (String a t)); [discriminate |].
  destruct (String.index 0 pat t) eqn:Ht; [discriminate |].
  intros _. now rewrite IH.
Qed.

(** Every name in the table starts with [Key.]. *)
Lemma key_names_prefixed (k v : string) :
  assoc k key_names = Some v -> String.prefix "Key." k = true.
Proof.
  unfold key_names. cbn [assoc].
  repeat match goal with
         | |- context [String.eqb k ?name] =>
           destruct (String.eqb_spec k name) as [->|_];
           [intros _; reflexivity |]
         end.
  discriminate.
Qed.

Lemma index_none_no_prefix (pat s : string) :
  String.index 0 pat s = None -> String.prefix pat s = false.
Proof.
  destruct s as [|a t]; cbn [String.index].
  - destruct pat; [discriminate | reflexivity].
  - destruct (String.prefix pat (String a t)); [discriminate | reflexivity].
Qed.
End KeyFacts.


(** X11: key names are mapped by removing [Key.]: a name in which [Key.]
    does not occur is passed on unchanged, and a name [Key.s] that is not
    in the table, with no further [Key.] in [s], is passed on as [s]. *)
Theorem mapped_key_strips_prefix (s : string) :
  Cascade.str_contains "Key." s = false ->
  Replay.mapped_key s = s
  /\ (Replay.assoc ("Key." +:+ s) Replay.key_names = None ->
      Replay.mapped_key ("Key." +:+ s) = s).
Proof.
  unfold Cascade.str_contains.
  destruct (String.index 0 "Key." s) eqn:Hidx; [discriminate |]. intros _.
  split.
  - unfold Replay.mapped_key.
    destruct (Replay.assoc s Replay.key_names) as [v|] eqn:Hv.
    + apply key_names_prefixed in Hv.
      rewrite (index_none_no_prefix _ _ Hidx) in Hv. discriminate.
    + now apply remove_all_absent.
  - intros Hnone. unfold Replay.mapped_key. rewrite Hnone.
    assert (Hstep : forall t fuel,
              Replay.remove_all (S fuel) "Key." ("Key." +:+ t)
              = Replay.remove_all fuel "Key." t)
      by (intros [|a t] fuel; reflexivity).
    change (String.length ("Key." +:+ s)) with (S (3 + String.length s)).
    rewrite Hstep. now apply remove_all_absent.
Qed.

Lemma mapped_key_strips_prefix_witness :
  Replay.mapped_key "f5" = "f5" /\ Replay.mapped_key "Key.f5" = "f5".
Proof.
  destruct (mapped_key_strips_prefix "f5" eq_refl) as [H1 H2].
  split; [exact H1 | exact (H2 eq_refl)].
Defined.

Section CountFacts.
Import Replay.
Context {W : Type}.
Variable P : Platform W.
Variable V : Cascade.Vision.
Variable script_dir : string.
Variables rec_win win_rect : Geometry.Rect.

Lemma replay_key_event_returns (event : Event) (w : W) :
  exists ok w', _replay_key_event P event w = (Ok ok, w').
Proof.
  unfold _replay_key_event, try_except, bind, ret.
  destruct (single_printable (ev_key event));
    destruct (etype_is event "key_press");
    match goal with
    | |- context [gui_keyDown P ?k w] =>
      destruct (gui_keyDown P k w) as [[[]|] w1]
    | |- context [gui_keyUp P ?k w] =>
      destruct (gui_keyUp P k w) as [[[]|] w1]
    end; eauto.
Qed.

(** An event of another type is skipped; one of the four types always
    ends as a success or a failure. *)
Lemma dispatch_kinds (event : Event) (w : W) :
  if Kinds.actionable event
  then fst (dispatch P V script_dir rec_win win_rect event w) <> Ok Ignored
  else dispatch P V script_dir rec_win win_rect event w = (Ok Ignored, w).
Proof.
  unfold Kinds.actionable, dispatch.
  destruct (etype_is event "key_press" || etype_is event "key_release")
    eqn:Hkey; cbn [orb].
  { unfold bind, ret.
    destruct (replay_key_event_returns event w) as ([|] & w' & ->);
      cbn [fst]; discriminate. }
  destruct (etype_is event "mouse_scroll") eqn:Hscroll; cbn [orb].
  { unfold bind, ret.
    destruct (resolve_point P V script_dir rec_win win_rect event w)
      as [[p|] w1]; cbn [fst]; [|discriminate].
    destruct (_perform_scroll_at P p.1 p.2 (ev_dy event) w1) as [[[]|] w2];
      cbn [fst]; discriminate. }
  destruct (etype_is event "mouse_click") eqn:Hclick; [|reflexivity].
  unfold bind, ret.
  destruct (resolve_point P V script_dir rec_win win_rect event w)
    as [[p|] w1]; cbn [fst]; [|discriminate].
  destruct (Executor._intelligent_click P p.1 p.2 DEFAULT_MAX_RADIUS w1)
    as [[[|]|] w2]; cbn [fst]; discriminate.
Qed.

Lemma replay_event_counts_kind (st : Locals) (event : Event) (w : W) :
  let st' := fst (replay_event P V script_dir rec_win win_rect st event w) in
  success st' + fail st'
  = success st + fail st + (if Kinds.actionable event then 1 else 0).
Proof.
  unfold replay_event. cbv zeta.
  match goal with
  | |- context [dispatch P V script_dir rec_win win_rect event ?w1] =>
    pose proof (dispatch_kinds event w1) as Hk;
    destruct (dispatch P V script_dir rec_win win_rect event w1)
      as [[[| |]|] w2]
  end;
    destruct (Kinds.actionable event); cbn [fst count success fail] in *;
    try lia; try congruence.
Qed.

Lemma run_events_counts_kinds (events : list Event) :
  forall (st : Locals) (w : W),
  let st' := fst (run_events P V script_dir rec_win win_rect events st w) in
  success st' + fail st'
  = success st + fail st
    + Z.of_nat (length (List.filter Kinds.actionable events)).
Proof.
  induction events as [|event rest IH]; intros st w; cbn [run_events].
  - cbn. lia.
  - pose proof (replay_event_counts_kind st event w) as H1. cbv zeta in H1.
    destruct (replay_event P V script_dir rec_win win_rect st event w)
      as [st1 w1]. cbn [fst] in H1.
    specialize (IH st1 w1). cbv zeta in IH |- *.
    cbn [List.filter]. destruct (Kinds.actionable event); cbn [length]; lia.
Qed.

Lemma replay_loop_never_aborted (events : list Event) :
  (forall w, abort_is_set P w = false) ->
  forall (st : Locals) (w : W),
  replay_loop P V script_dir rec_win win_rect events st w
  = run_events P V script_dir rec_win win_rect events st w.
Proof.
  intros Hno. induction events as [|event rest IH]; intros st w;
    [reflexivity |].
  cbn [replay_loop run_events]. rewrite Hno.
  destruct (replay_event P V script_dir rec_win win_rect st event w).
  apply IH.
Qed.
End CountFacts.

(** X12: the replay counts each attempted event of type [key_press],
    [key_release], [mouse_scroll] or [mouse_click] exactly once, as a
    success or as a failure, and counts no other event: after the loop,
    [success + fail] has grown by the number of such events among the [n]
    events attempted, and [n] is the whole list when the abort flag is
    never set. *)
Theorem replay_counts_each_actionable_event_once
    {W : Type} (P : Platform W) (V : Cascade.Vision) (script_dir : string)
    (rec_win win_rect : Geometry.Rect)
    (events : list Event) (st : Replay.Locals) (w : W) :
  exists n : nat,
    (n <= length events)%nat
    /\ (let st' :=
          fst (Replay.replay_loop P V script_dir rec_win win_rect events st w) in
        Replay.success st' + Replay.fail st'
        = Replay.success st + Replay.fail st
          + Z.of_nat (length (List.filter Kinds.actionable (take n events))))
    /\ ((forall w0, abort_is_set P w0 = false) -> n = length events).
Proof.
  destruct (replay_loop_stops_at_check P V script_dir rec_win win_rect events st w)
    as (n & Hn & Hrun & Hstop & _).
  exists n. split; [exact Hn |]. split.
  - cbv zeta. rewrite Hrun. apply run_events_counts_kinds.
  - intros Hno. destruct (Nat.eq_dec n (length events)) as [E|E]; [exact E |].
    assert (Hlt : (n < length events)%nat) by lia.
    specialize (Hstop Hlt). rewrite Hno in Hstop. discriminate.
Qed.

Lemma replay_counts_each_actionable_event_once_witness :
  let st' :=
    fst (Replay.replay_loop (Demo.pointer_platform (fun _ => true))
           Demo.no_vision "rec" Demo.screen Demo.window Replay.two_clicks
           Replay.start tt) in
  Replay.success st' + Replay.fail st' = 2.
Proof.
  destruct (replay_counts_each_actionable_event_once
              (Demo.pointer_platform (fun _ => true))
              Demo.no_vision "rec" Demo.screen Demo.window Replay.two_clicks
              Replay.start tt) as (n & _ & Hc & Hall).
  rewrite (Hall (fun _ => eq_refl)) in Hc. exact Hc.
Defined.

(** X13: when the abort flag is already set at the first check, a replay
    of a non-empty recording touches nothing, reports zero successes and
    zero failures, and returns [True]. *)
Theorem replay_aborted_at_start_returns_true
    {W : Type} (P : Platform W) (V : Cascade.Vision) (script_dir : string)
    (rec_win win_rect : Geometry.Rect) (events : list Event) (w : W) :
  events <> [] ->
  abort_is_set P w = true ->
  Replay.replay_script P V script_dir rec_win win_rect events w
  = (Some (0, 0), true, w).
Proof.
  intros Hne Habort. destruct events as [|event rest]; [congruence |].
  unfold Replay.replay_script. cbn [Replay.replay_loop]. now rewrite Habort.
Qed.

Lemma replay_aborted_at_start_returns_true_witness :
  Replay.replay_script Demo.hotkey_platform Demo.no_vision "rec"
    Demo.screen Demo.window Replay.two_clicks
    {| Demo.flag := true; Demo.hotkey_during_next_sleep := false |}
  = (Some (0, 0), true,
     {| Demo.flag := true; Demo.hotkey_during_next_sleep := false |}).
Proof.
  apply (replay_aborted_at_start_returns_true Demo.hotkey_platform).
  - discriminate.
  - reflexivity.
Defined.



(** ** Recorder *)

Section CaptureFacts.
Context {W : Type}.
Variable B : Capture.Backend W.

Lemma capture_ui_state_captured (w : W) :
  Recorded.captured B (fst (Capture._capture_ui_state B w)).
Proof.
  unfold Capture._capture_ui_state, Recorded.captured.
  destruct (Capture._safe_screenshot B w) as [[i|] w1]; cbn [fst];
    [right; eauto | now left].
Qed.

Lemma extract_text_not_empty (img : Image) (x y w h : Z) :
  Capture._extract_text_from_region B img x y w h <> Some EmptyString.
Proof.
  unfold Capture._extract_text_from_region.
  destruct (negb (Capture.OCR_AVAILABLE B)); [discriminate |].
  destruct (Capture.region_to_string B img x y w h) as [raw|];
    [|discriminate].
  cbv zeta. destruct (str_truthy (Capture.str_strip B raw)) eqn:Ht;
    [|discriminate].
  intros [= E]. rewrite E in Ht. discriminate.
Qed.

(** The hash of a captured state is a fingerprint hash when the digest
    has its 64 characters. *)
Lemma captured_fingerprint (s : UIState.UIState) :
  (forall bytes md, Capture.sha256_hexdigest B bytes = Ok md ->
                    String.length md = 64%nat) ->
  Recorded.captured B s ->
  UIState.is_fingerprint_hash (UIState.screenshot_hash s).
Proof.
  intros Hsha [->|[img ->]]; [exact I |].
  now apply img_hash_is_fingerprint.
Qed.
End CaptureFacts.

Section RecorderFacts.
Import Recorder.
Context {W : Type}.
Variable B : Capture.Backend W.
Variable outdir : string.

Lemma size_key_is_field (name : string) (wh : Z * Z) :
  In (name, wh) Snips.sizes ->
  In ("img_" +:+ name) img_fields /\ In ("img_" +:+ name) Cascade.img_attrs.
Proof.
  unfold Snips.sizes. simpl.
  intros H.
  repeat (destruct H as [[= <- <-]|H]; [simpl; tauto |]). destruct H.
Qed.

(** The regions saved for one event: never a raise, every key one of
    the five field names, with its origin. *)
Lemma save_snips_ok (x y : Z) (w : W) :
  exists snips,
    fst (save_snips B outdir x y w) = Ok snips
    /\ forall k path, Snips.results snips !! k = Some path ->
         In k img_fields /\ In k Cascade.img_attrs
         /\ is_Some (Snips.origins snips !! k).
Proof.
  unfold save_snips.
  destruct (Capture._safe_screenshot B w) as [[img|] w1]; cbn [fst].
  - unfold Snips._save_multi_snips.
    match goal with
    | |- context [Snips.snip_loop ?cd ?ms ?so ?od ?sw ?sh x y Snips.sizes _] =>
      destruct (snip_loop_inv cd ms so od sw sh x y Snips.sizes []
                  Snips.no_snips ltac:(apply snips_inv_start))
        as (snips & Hrun & [Hc Hk Hs])
    end.
    exists snips. split; [exact Hrun |].
    intros k path Hp.
    destruct (Hc k path Hp) as (name & sw' & sh' & Hin & -> & _ & _ & _ & Ho).
    destruct (size_key_is_field name _ Hin) as [H1 H2].
    repeat split; try assumption. rewrite Ho. eauto.
  - exists Snips.no_snips. split; [reflexivity |].
    intros k path Hp. unfold Snips.no_snips in Hp. cbn in Hp.
    rewrite lookup_empty in Hp. discriminate.
Qed.

Lemma record_event_ok (st : State) (a : ActionType) (x y : Z)
    (d : gmap string JVal) (w : W) :
  a = MOUSE_CLICK \/ a = MOUSE_SCROLL ->
  exists e w',
    _record_event B outdir st a x y d w = (Ok (append st e), w')
    /\ action_type e = a /\ data e = d
    /\ Recorded.pointer_event_ok B e.
Proof.
  intros Ha. unfold _record_event.
  pose proof (capture_ui_state_captured B w) as Hbefore.
  destruct (Capture._capture_ui_state B w) as [ui_before w1].
  cbn [fst] in Hbefore.
  destruct (save_snips_ok x y w1) as (snips & Hsnips & Hkeys).
  destruct (save_snips B outdir x y w1) as [r w2]. cbn [fst] in Hsnips.
  subst r.
  destruct (Capture._safe_screenshot B w2) as [img w3].
  set (text := match img with
               | Some i => Capture._extract_text_from_region B i _ _ _ _
               | None => None
               end).
  assert (Htext : text <> Some EmptyString).
  { subst text. destruct img; [apply extract_text_not_empty | discriminate]. }
  assert (Hregions : exists o,
    Some (Snips.origins snips) = Some o
    /\ forall k path, Snips.results snips !! k = Some path ->
         In k img_fields /\ is_Some (o !! k)).
  { exists (Snips.origins snips). split; [reflexivity |].
    intros k path Hp. destruct (Hkeys k path Hp) as (H1 & _ & H3). now split. }
  assert (Hval : forall ev,
    ui_state_before ev = Some ui_before ->
    exists e w4,
      _validate_effect B ev w3 = (e, w4)
      /\ action_type e = action_type ev /\ data e = data ev
      /\ imgs e = imgs ev /\ img_origins e = img_origins ev
      /\ ocr_text e = ocr_text ev
      /\ exists after,
           ui_state_before e = Some ui_before /\ ui_state_after e = Some after
           /\ Recorded.captured B after
           /\ action_validated e
              = UIState._detect_ui_changes
                  (UIState.screenshot_hash ui_before)
                  (UIState.screenshot_hash after)
           /\ validation_confidence e
              = (if action_validated e then 1 else 0)%Q).
  { intros ev Hev. unfold _validate_effect. cbv zeta.
    pose proof (capture_ui_state_captured B (Capture.pause B 0.3 w3)) as Hafter.
    destruct (Capture._capture_ui_state B (Capture.pause B 0.3 w3))
      as [after w4]. cbn [fst] in Hafter. rewrite Hev.
    eexists _, _. split; [reflexivity |]. cbn.
    repeat split; try assumption. exists after. repeat split; assumption. }
  destruct Ha as [-> | ->].
  - match goal with
    | |- context [_validate_effect B ?ev w3] =>
      destruct (Hval ev eq_refl)
        as (e & w4 & -> & Hty & Hd & Hi & Ho & Hx
            & after & H1 & H2 & H3 & H4 & H5)
    end.
    exists e, w4. split; [reflexivity |]. split; [exact Hty |].
    split; [exact Hd |]. split; [|split].
    + exists ui_before, after. repeat split; assumption.
    + rewrite Ho, Hi. exact Hregions.
    + now rewrite Hx.
  - match goal with
    | |- context [_validate_effect B ?ev w3] =>
      destruct (Hval ev eq_refl)
        as (e & w4 & -> & Hty & Hd & Hi & Ho & Hx
            & after & H1 & H2 & H3 & H4 & H5)
    end.
    exists e, w4. split; [reflexivity |]. split; [exact Hty |].
    split; [exact Hd |]. split; [|split].
    + exists ui_before, after. repeat split; assumption.
    + rewrite Ho, Hi. exact Hregions.
    + now rewrite Hx.
Qed.

(** One callback: never a raise; the state grows by at most one event,
    which is as [recorded_ok] says; nothing happens when the recorder
    is not active or the callback is a move or a release; a key
    callback leaves the world alone. *)
Lemma handle_spec (st : State) (cb : Callback) (w : W) :
  exists new w',
    handle B outdir st cb w
    = (Ok {| events := events st ++ new; start_time := start_time st;
             running := running st |}, w')
    /\ Forall (Recorded.recorded_ok B) new
    /\ (if active B st w && negb (records_nothing cb)
        then length new = 1%nat
        else new = [] /\ w' = w)
    /\ (is_key_callback cb = true -> w' = w).
Proof.
  assert (Hsame : forall w0 : W,
    (Ok st, w0)
    = (Ok {| events := events st ++ []; start_time := start_time st;
             running := running st |}, w0)).
  { intros w0. rewrite app_nil_r. now destruct st. }
  destruct cb as [x y|x y button pressed|x y dx dy|key|key];
    cbn [handle records_nothing is_key_callback].
  - exists [], w. rewrite andb_false_r, <- Hsame.
    repeat split; auto; discriminate.
  - unfold on_click. destruct (active B st w); cbn [negb andb].
    2:{ exists [], w. rewrite <- Hsame.
        repeat split; auto; discriminate. }
    destruct pressed; cbn [negb].
    2:{ exists [], w. rewrite <- Hsame.
        repeat split; auto; discriminate. }
    destruct (record_event_ok st MOUSE_CLICK x y
                (<["button" := JStr button]> (<["pressed" := JBool true]> ∅))
                w (or_introl eq_refl))
      as (e & w' & -> & Hty & Hd & Hok).
    exists [e], w'. split; [reflexivity |]. split; [|split; [reflexivity |]].
    + constructor; [|constructor]. unfold Recorded.recorded_ok.
      rewrite Hty. split; [exact Hok | eauto].
    + discriminate.
  - unfold on_scroll. destruct (active B st w); cbn [negb andb].
    2:{ exists [], w. rewrite <- Hsame.
        repeat split; auto; discriminate. }
    destruct (record_event_ok st MOUSE_SCROLL x y
                (<["dx" := JInt dx]> (<["dy" := JInt dy]> ∅))
                w (or_intror eq_refl))
      as (e & w' & -> & Hty & Hd & Hok).
    exists [e], w'. split; [reflexivity |]. split; [|split; [reflexivity |]].
    + constructor; [|constructor]. unfold Recorded.recorded_ok.
      rewrite Hty. split; [exact Hok | eauto].
    + discriminate.
  - unfold on_press. destruct (active B st w); cbn [negb andb].
    2:{ exists [], w. rewrite <- Hsame. repeat split; auto. }
    eexists [_], w. split; [reflexivity |].
    split; [|split; reflexivity].
    constructor; [|constructor]. split; [reflexivity | eexists; reflexivity].
  - unfold on_release. destruct (active B st w); cbn [negb andb].
    2:{ exists [], w. rewrite <- Hsame. repeat split; auto. }
    eexists [_], w. split; [reflexivity |].
    split; [|split; reflexivity].
    constructor; [|constructor]. split; [reflexivity | eexists; reflexivity].
Qed.

(** The same over a run of callbacks. *)
Lemma handle_all_spec (cbs : list Callback) :
  forall (st : State) (w : W),
  exists new w',
    handle_all B outdir st cbs w
    = (Ok {| events := events st ++ new; start_time := start_time st;
             running := running st |}, w')
    /\ Forall (Recorded.recorded_ok B) new
    /\ (length new <= length (Recorded.recording_callbacks cbs))%nat
    /\ (running st = false -> new = [] /\ w' = w)
    /\ (running st = true ->
        (forall w0, Capture.abort_flag B w0 = false) ->
        length new = length (Recorded.recording_callbacks cbs)).
Proof.
  induction cbs as [|cb rest IH]; intros st w.
  - exists [], w. cbn. rewrite app_nil_r. destruct st. repeat split; auto.
  - cbn [handle_all].
    destruct (handle_spec st cb w) as (new1 & w1 & -> & Hok1 & Hcount1 & _).
    destruct (IH {| events := events st ++ new1; start_time := start_time st;
                    running := running st |} w1)
      as (new2 & w2 & -> & Hok2 & Hlen2 & Hoff2 & Hon2).
    cbn [events start_time running] in *.
    exists (new1 ++ new2), w2. rewrite app_assoc.
    split; [reflexivity |]. split; [now apply Forall_app |].
    split; [|split].
    + unfold Recorded.recording_callbacks in *. cbn [List.filter].
      rewrite length_app.
      destruct (active B st w && negb (records_nothing cb)) eqn:Hact.
      * apply andb_true_iff in Hact. destruct Hact as [_ ->].
        cbn [length]. lia.
      * destruct Hcount1 as [-> _]. cbn [length].
        destruct (negb (records_nothing cb)); cbn [length]; lia.
    + intros Hoff. unfold active in Hcount1. rewrite Hoff in Hcount1.
      cbn [andb] in Hcount1. destruct Hcount1 as [-> ->].
      destruct (Hoff2 Hoff) as [-> ->]. now split.
    + intros Hon Hno. specialize (Hon2 Hon Hno).
      unfold Recorded.recording_callbacks in *. cbn [List.filter].
      rewrite length_app, Hon2.
      unfold active in Hcount1. rewrite Hon, Hno in Hcount1.
      cbn [andb negb] in Hcount1.
      destruct (negb (records_nothing cb)); cbn [length].
      * lia.
      * destruct Hcount1 as [-> _]. reflexivity.
Qed.
End RecorderFacts.

(** X15: the recorder's callbacks never raise and only append: after any
    run of callbacks the earlier events are still there, in order, and
    start time and running flag are as before.  At most one event is
    added per button press, scroll or key callback and none for a pointer
    move or a button release; exactly one each while the recorder runs
    and the abort flag stays clear; and a recorder that is not running
    adds nothing and leaves the world alone. *)
Theorem recording_only_appends
    {W : Type} (B : Capture.Backend W) (outdir : string)
    (st : Recorder.State) (cbs : list Recorder.Callback) (w : W) :
  exists new w',
    Recorder.handle_all B outdir st cbs w
    = (Ok {| Recorder.events := Recorder.events st ++ new;
             Recorder.start_time := Recorder.start_time st;
             Recorder.running := Recorder.running st |}, w')
    /\ (length new <= length (Recorded.recording_callbacks cbs))%nat
    /\ (Recorder.running st = false -> new = [] /\ w' = w)
    /\ (Recorder.running st = true ->
        (forall w0, Capture.abort_flag B w0 = false) ->
        length new = length (Recorded.recording_callbacks cbs)).
Proof.
  destruct (handle_all_spec B outdir cbs st w)
    as (new & w' & Hrun & _ & Hlen & Hoff & Hon).
  exists new, w'. repeat split; try assumption; now apply Hoff.
Qed.

Lemma recording_only_appends_witness :
  exists new w',
    Recorder.handle_all Studio.backend "rec" Studio.started Studio.session 0
    = (Ok {| Recorder.events := [] ++ new;
             Recorder.start_time := 0;
             Recorder.running := true |}, w')
    /\ length new = 2%nat.
Proof.
  destruct (recording_only_appends Studio.backend "rec" Studio.started
              Studio.session 0) as (new & w' & Hrun & _ & _ & Hon).
  exists new, w'. split; [exact Hrun |].
  exact (Hon eq_refl (fun _ => eq_refl)).
Defined.

(** X16: every event the callbacks add is a click, scroll, key press or
    key release, never a pointer move.  A key event carries only its
    timestamp, type and key: coordinates zero, no region, no UI state, no
    text, not validated.  A click or scroll event carries both UI states,
    a validation flag computed from their hashes with confidence 1 or 0
    to match, its regions under the five field names each with an
    origin, a text that is absent or not empty, and the data of its
    callback. *)
Theorem recorded_events_are_well_formed
    {W : Type} (B : Capture.Backend W) (outdir : string)
    (st : Recorder.State) (cbs : list Recorder.Callback) (w : W) :
  exists new w',
    Recorder.handle_all B outdir st cbs w
    = (Ok {| Recorder.events := Recorder.events st ++ new;
             Recorder.start_time := Recorder.start_time st;
             Recorder.running := Recorder.running st |}, w')
    /\ Forall (Recorded.recorded_ok B) new.
Proof.
  destruct (handle_all_spec B outdir cbs st w) as (new & w' & Hrun & Hok & _).
  now exists new, w'.
Qed.

(** X17: with a digest of 64 characters, a recorded click or scroll is
    marked validated exactly when the captures before and after both
    produced a hash and the two hashes differ, and its validation
    confidence is 1 exactly when it is validated and 0 otherwise; an
    event recorded while no capture works is never validated. *)
Theorem recorded_validation_reflects_hash_change
    {W : Type} (B : Capture.Backend W) (outdir : string)
    (st : Recorder.State) (cbs : list Recorder.Callback) (w : W) :
  (forall bytes md, Capture.sha256_hexdigest B bytes = Ok md ->
                    String.length md = 64%nat) ->
  exists new w',
    Recorder.handle_all B outdir st cbs w
    = (Ok {| Recorder.events := Recorder.events st ++ new;
             Recorder.start_time := Recorder.start_time st;
             Recorder.running := Recorder.running st |}, w')
    /\ forall e, In e new ->
         Recorder.action_type e = Recorder.MOUSE_CLICK
         \/ Recorder.action_type e = Recorder.MOUSE_SCROLL ->
         exists before after,
           Recorder.ui_state_before e = Some before
           /\ Recorder.ui_state_after e = Some after
           /\ (Recorder.action_validated e = true
               <-> exists hb ha,
                     UIState.screenshot_hash before = Some hb
                     /\ UIState.screenshot_hash after = Some ha
                     /\ hb <> ha)
           /\ Recorder.validation_confidence e
              = (if Recorder.action_validated e then 1 else 0)%Q.
Proof.
  intros Hsha.
  destruct (handle_all_spec B outdir cbs st w) as (new & w' & Hrun & Hok & _).
  exists new, w'. split; [exact Hrun |].
  intros e He Hty. rewrite List.Forall_forall in Hok. specialize (Hok e He).
  assert (Hp : Recorded.pointer_event_ok B e).
  { unfold Recorded.recorded_ok in Hok.
    destruct Hty as [Hty|Hty]; rewrite Hty in Hok; apply Hok. }
  destruct Hp as ((before & after & Hb & Ha & Hcb & Hca & Hval & Hconf) & _).
  exists before, after. repeat split; try assumption.
  - rewrite Hval, detect_ui_changes_true.
    intros (hb & ha & H1 & H2 & _ & _ & Hne). eauto.
  - intros (hb & ha & H1 & H2 & Hne).
    rewrite Hval, detect_ui_changes_true. exists hb, ha.
    pose proof (captured_fingerprint B before Hsha Hcb) as Fb.
    pose proof (captured_fingerprint B after Hsha Hca) as Fa.
    rewrite H1 in Fb. rewrite H2 in Fa.
    repeat split; try assumption; now apply fingerprint_hash_nonempty.
Qed.

Lemma recorded_validation_reflects_hash_change_witness :
  exists new w',
    Recorder.handle_all Studio.backend "rec" Studio.started Studio.session 0
    = (Ok {| Recorder.events := [] ++ new;
             Recorder.start_time := 0;
             Recorder.running := true |}, w').
Proof.
  destruct (recorded_validation_reflects_hash_change Studio.backend "rec"
              Studio.started Studio.session 0) as (new & w' & Hrun & _).
  - intros bytes md. cbn. destruct (Z.even (hd 0 bytes)); intros [= <-];
      reflexivity.
  - now exists new, w'.
Defined.

Section ReplayViewFacts.
Import Recorder.

Lemma img_field_is_attr (k : string) :
  In k img_fields <-> In k Cascade.img_attrs.
Proof. unfold img_fields, Cascade.img_attrs. simpl. tauto. Qed.

Lemma img_attr_not_reserved (k : string) :
  In k Cascade.img_attrs -> k <> "action_type" /\ k <> "ocr_text".
Proof.
  unfold Cascade.img_attrs. simpl.
  intros [<-|[<-|[<-|[<-|[<-|[]]]]]]; split; discriminate.
Qed.

Lemma replay_view_strs (e : EnhancedEvent) (v : Event) :
  replay_view e = Some v ->
  ev_str v = Recorded.view_strs e /\ ev_timestamp v = timestamp e
  /\ ev_x v = e_x e /\ ev_y v = e_y e.
Proof.
  unfold replay_view, Recorded.view_strs. cbv zeta.
  destruct (data e !! "key") as [[| | |k]|]; try discriminate;
    intros [= <-]; repeat split.
Qed.

Lemma view_strs_region (e : EnhancedEvent) (k : string) :
  In k Cascade.img_attrs -> Recorded.view_strs e !! k = imgs e !! k.
Proof.
  intros Hk. destruct (img_attr_not_reserved k Hk) as [H1 H2].
  unfold Recorded.view_strs. rewrite lookup_insert_ne by congruence.
  assert (Hf : filter (fun kv => In (fst kv) img_fields) (imgs e) !! k
               = imgs e !! k).
  { destruct (imgs e !! k) as [p|] eqn:Hp.
    - apply map_lookup_filter_Some_2; [exact Hp |].
      cbn. now apply img_field_is_attr.
    - apply map_lookup_filter_None_2. now left. }
  destruct (ocr_text e); [rewrite lookup_insert_ne by congruence |]; exact Hf.
Qed.

Lemma view_strs_text (e : EnhancedEvent) :
  Recorded.view_strs e !! "ocr_text" = ocr_text e.
Proof.
  unfold Recorded.view_strs. rewrite lookup_insert_ne by discriminate.
  destruct (ocr_text e) as [t|]; [apply lookup_insert_eq |].
  apply map_lookup_filter_None_2. right. intros p _. cbn.
  unfold img_fields. simpl. intros [H|[H|[H|[H|[H|[]]]]]]; discriminate H.
Qed.

Lemma view_strs_actionable (e : EnhancedEvent) (v : Event) :
  ev_str v = Recorded.view_strs e -> action_type e <> MOUSE_MOVE ->
  Kinds.actionable v = true.
Proof.
  intros Hv Hty. unfold Kinds.actionable, Replay.etype_is.
  rewrite Hv. unfold Recorded.view_strs. rewrite lookup_insert_eq.
  rewrite !orb_true_iff, !bool_decide_eq_true.
  destruct (action_type e); cbn; try congruence; tauto.
Qed.
End ReplayViewFacts.

(** X18: what the recorder saves is what the replay looks for.  Every
    recorded click or scroll has a replay view; a recorded key event has
    one unless its key has no character.  The view has one of the four
    types the replay loop acts on, so no recorded event is skipped; it
    has the recorded coordinates and timestamp; each region attribute
    the cascade looks up holds exactly the recorded region path, every
    recorded region is among those attributes, and the text is the
    recorded text. *)
Theorem recorded_events_are_replayable
    {W : Type} (B : Capture.Backend W) (outdir : string)
    (st : Recorder.State) (cbs : list Recorder.Callback) (w : W) :
  exists new w',
    Recorder.handle_all B outdir st cbs w
    = (Ok {| Recorder.events := Recorder.events st ++ new;
             Recorder.start_time := Recorder.start_time st;
             Recorder.running := Recorder.running st |}, w')
    /\ forall e, In e new ->
         (Recorder.data e !! "key" <> Some Recorder.JNull ->
          is_Some (Recorder.replay_view e))
         /\ (forall k path, Recorder.imgs e !! k = Some path ->
               In k Cascade.img_attrs)
         /\ forall v, Recorder.replay_view e = Some v ->
              Kinds.actionable v = true
              /\ ev_timestamp v = Recorder.timestamp e
              /\ ev_x v = Recorder.e_x e /\ ev_y v = Recorder.e_y e
              /\ (forall k, In k Cascade.img_attrs ->
                    ev_str v !! k = Recorder.imgs e !! k)
              /\ ev_str v !! "ocr_text" = Recorder.ocr_text e.
Proof.
  destruct (handle_all_spec B outdir cbs st w) as (new & w' & Hrun & Hok & _).
  exists new, w'. split; [exact Hrun |].
  intros e He. rewrite List.Forall_forall in Hok. specialize (Hok e He).
  assert (Hkind : Recorder.action_type e <> Recorder.MOUSE_MOVE
                  /\ (exists key, Recorder.data e !! "key"
                                  = Some (Recorder.key_value key)
                      \/ Recorder.data e !! "key" = None)
                  /\ forall k path, Recorder.imgs e !! k = Some path ->
                       In k Cascade.img_attrs).
  { unfold Recorded.recorded_ok in Hok.
    destruct (Recorder.action_type e) eqn:Hty.
    - destruct Hok as [(_ & (o & _ & Hkeys) & _) (button & Hd)].
      split; [discriminate |]. split.
      + exists (Recorder.KeyName EmptyString). right. now rewrite Hd.
      + intros k path Hp. apply img_field_is_attr. now apply (Hkeys k path).
    - destruct Hok.
    - destruct Hok as [(_ & (o & _ & Hkeys) & _) (dx & dy & Hd)].
      split; [discriminate |]. split.
      + exists (Recorder.KeyName EmptyString). right. now rewrite Hd.
      + intros k path Hp. apply img_field_is_attr. now apply (Hkeys k path).
    - destruct Hok as [Hnew (key & Hd)]. split; [discriminate |]. split.
      + exists key. left. rewrite Hd. apply lookup_insert_eq.
      + intros k path Hp. rewrite Hnew in Hp. cbn in Hp.
        rewrite lookup_empty in Hp. discriminate.
    - destruct Hok as [Hnew (key & Hd)]. split; [discriminate |]. split.
      + exists key. left. rewrite Hd. apply lookup_insert_eq.
      + intros k path Hp. rewrite Hnew in Hp. cbn in Hp.
        rewrite lookup_empty in Hp. discriminate. }
  destruct Hkind as (Hty & (key & Hkey) & Hkeys).
  split; [|split; [exact Hkeys |]].
  - intros Hnn. unfold Recorder.replay_view. cbv zeta.
    destruct Hkey as [Hkey|Hkey]; rewrite Hkey in *; [|eauto].
    destruct key as [[c|]|r]; cbn in *; eauto. congruence.
  - intros v Hv.
    destruct (replay_view_strs e v Hv) as (Hs & Ht & Hx & Hy).
    split; [now apply (view_strs_actionable e) |].
    repeat split; try assumption.
    + intros k Hk. rewrite Hs. now apply view_strs_region.
    + rewrite Hs. apply view_strs_text.
Qed.

Section HotkeyFacts.
Import Hotkey.


End HotkeyFacts.


Section SimctlFacts.
Import Simctl.
Variable ios_version : string -> option Version.

Local Abbreviation key := (ver_key ios_version).
Local Abbreviation le a b := (version_le (key a) (key b) = true).

Lemma version_le_total (a b : Version) :
  version_le a b = false -> version_le b a = true.
Proof using Type.
  unfold version_le. destruct a as [a1 a2], b as [b1 b2]. cbn [fst snd].
  destruct (Nat.ltb_spec a1 b1), (Nat.ltb_spec b1 a1),
    (Nat.eqb_spec a1 b1), (Nat.eqb_spec b1 a1),
    (Nat.leb_spec a2 b2), (Nat.leb_spec b2 a2);
    cbn; try reflexivity; try discriminate; intros _; lia.
Qed.

Lemma version_le_trans (a b c : Version) :
  version_le a b = true -> version_le b c = true -> version_le a c = true.
Proof using Type.
  unfold version_le. destruct a as [a1 a2], b as [b1 b2], c as [c1 c2]. cbn [fst snd].
  destruct (Nat.ltb_spec a1 b1), (Nat.ltb_spec b1 c1), (Nat.ltb_spec a1 c1),
    (Nat.eqb_spec a1 b1), (Nat.eqb_spec b1 c1), (Nat.eqb_spec a1 c1),
    (Nat.leb_spec a2 b2), (Nat.leb_spec b2 c2), (Nat.leb_spec a2 c2);
    cbn; try reflexivity; try discriminate; intros _ _; lia.
Qed.

Lemma insert_sorted_In (r x : Runtime) (l : list Runtime) :
  In x (insert_sorted ios_version r l) <-> x = r \/ In x l.
Proof using Type.
  induction l as [|r' rest IH]; cbn.
  - intuition congruence.
  - destruct (version_le (key r) (key r')); cbn; [intuition congruence|].
    rewrite IH. intuition congruence.
Qed.

Lemma sort_by_version_In (x : Runtime) (l : list Runtime) :
  In x (sort_by_version ios_version l) <-> In x l.
Proof using Type.
  induction l as [|r rest IH]; cbn; [reflexivity|].
  rewrite insert_sorted_In, IH. intuition congruence.
Qed.

Lemma version_le_refl (a : Version) : version_le a a = true.
Proof using Type.
  destruct (version_le a a) eqn:H; [reflexivity|].
  rewrite <- H. exact (version_le_total _ _ H).
Qed.

Lemma insert_sorted_last (r : Runtime) (l : list Runtime) :
  last (insert_sorted ios_version r l) = Some r \/
  (l <> [] /\ last (insert_sorted ios_version r l) = last l).
Proof using Type.
  induction l as [|r' rest IH]; cbn [insert_sorted]; [left; reflexivity|].
  destruct (version_le (key r) (key r')).
  - right. split; [discriminate | reflexivity].
  - destruct rest as [|r'' rest'].
    + left. reflexivity.
    + destruct IH as [IH|[_ IH]].
      * left. revert IH. cbn [insert_sorted].
        destruct (version_le (key r) (key r'')); intros IH; exact IH.
      * right. split; [discriminate|]. revert IH. cbn [insert_sorted].
        destruct (version_le (key r) (key r'')); intros IH; exact IH.
Qed.

(** Inserting keeps the last element above all the others. *)
Lemma insert_sorted_max (r : Runtime) (l : list Runtime) :
  (forall m, last l = Some m -> forall x, In x l -> le x m) ->
  forall m, last (insert_sorted ios_version r l) = Some m ->
  forall x, In x (insert_sorted ios_version r l) -> le x m.
Proof using Type.
  induction l as [|r' rest IH]; intros Hmax m Hm x Hx.
  - cbn in Hm, Hx. destruct Hx as [<-|[]]. injection Hm as <-.
    apply version_le_refl.
  - revert Hm Hx. cbn [insert_sorted].
    destruct (version_le (key r) (key r')) eqn:Hle; intros Hm Hx.
    + change (last (r' :: rest) = Some m) in Hm.
      destruct Hx as [<-|Hx].
      * eapply version_le_trans; [exact Hle|].
        apply (Hmax m Hm). left. reflexivity.
      * apply (Hmax m Hm). exact Hx.
    + assert (Hrest : forall m0, last rest = Some m0 ->
                        forall x0, In x0 rest -> le x0 m0).
      { intros m0 Hm0 x0 Hx0. apply Hmax; [|right; exact Hx0].
        destruct rest; [destruct Hx0 | exact Hm0]. }
      assert (Hm' : last (insert_sorted ios_version r rest) = Some m).
      { revert Hm. destruct rest as [|r'' rest']; cbn [insert_sorted].
        - intros Hm. exact Hm.
        - destruct (version_le (key r) (key r'')); intros Hm; exact Hm. }
      destruct Hx as [<-|Hx]; [|exact (IH Hrest m Hm' x Hx)].
      destruct (insert_sorted_last r rest) as [Hl|[Hne Hl]].
      * rewrite Hl in Hm'. injection Hm' as <-.
        apply version_le_total. exact Hle.
      * rewrite Hl in Hm'. apply Hmax; [|left; reflexivity].
        destruct rest; [congruence | exact Hm'].
Qed.

Lemma sort_by_version_max (l : list Runtime) :
  forall m, last (sort_by_version ios_version l) = Some m ->
  forall x, In x l -> le x m.
Proof using Type.
  assert (H : forall m, last (sort_by_version ios_version l) = Some m ->
            forall x, In x (sort_by_version ios_version l) -> le x m).
  { induction l as [|r rest IH]; [intros m Hm; discriminate|].
    cbn [sort_by_version fold_right]. apply insert_sorted_max. exact IH. }
  intros m Hm x Hx. apply (H m Hm). apply sort_by_version_In. exact Hx.
Qed.

Lemma sort_by_version_last_In (l : list Runtime) (m : Runtime) :
  last (sort_by_version ios_version l) = Some m -> In m l.
Proof using Type.
  intros Hm. apply sort_by_version_In.
  apply last_Some in Hm. destruct Hm as [l' Hl]. rewrite Hl.
  apply in_or_app. right. left. reflexivity.
Qed.

Lemma sort_by_version_nonempty (l : list Runtime) :
  last (sort_by_version ios_version l) = None -> l = [].
Proof using Type.
  intros Hm. destruct l as [|r rest]; [reflexivity|]. exfalso.
  assert (Hin : In r (sort_by_version ios_version (r :: rest)))
    by (apply sort_by_version_In; left; reflexivity).
  apply last_None in Hm. rewrite Hm in Hin. exact Hin.
Qed.
End SimctlFacts.

(** X20: [find_runtime_identifier] returns nothing exactly when no
    runtime of the listing is an available iOS runtime; otherwise it
    returns the identifier of an available iOS runtime whose version is
    at least that of every other available iOS runtime. *)
Theorem find_runtime_identifier_picks_newest
    (ios_version : string -> option Simctl.Version)
    (runtimes : list Simctl.Runtime) :
  (Simctl.find_runtime_identifier ios_version runtimes = None <->
   forall r, In r runtimes -> Simctl.is_ios r = false) /\
  forall id, Simctl.find_runtime_identifier ios_version runtimes = Some id ->
    exists r, In r runtimes /\ Simctl.is_ios r = true /\
      Simctl.rt_identifier r = Some id /\
      forall r', In r' runtimes -> Simctl.is_ios r' = true ->
        Simctl.version_le (Simctl.ver_key ios_version r')
                          (Simctl.ver_key ios_version r) = true.
Proof.
  unfold Simctl.find_runtime_identifier. cbv zeta.
  destruct (last (Simctl.sort_by_version ios_version
                    (List.filter Simctl.is_ios runtimes))) as [m|] eqn:Hm.
  - pose proof (sort_by_version_last_In _ _ _ Hm) as Hin.
    apply filter_In in Hin. destruct Hin as [Hin Hios].
    assert (Hid : is_Some (Simctl.rt_identifier m)).
    { revert Hios. unfold Simctl.is_ios.
      destruct (Simctl.rt_identifier m) as [i|]; [eauto|].
      cbn. discriminate. }
    split.
    + split.
      * intros Hnone. destruct Hid as [i Hi]. congruence.
      * intros Hall. rewrite (Hall m Hin) in Hios. discriminate.
    + intros id Hid'. exists m. repeat split; try assumption.
      intros r' Hr' Hios'. apply (sort_by_version_max _ _ _ Hm).
      apply filter_In. split; assumption.
  - apply sort_by_version_nonempty in Hm. split.
    + split; [|reflexivity]. intros _ r Hr.
      destruct (Simctl.is_ios r) eqn:Hios; [|reflexivity]. exfalso.
      assert (Hin : In r (List.filter Simctl.is_ios runtimes))
        by (apply filter_In; split; assumption).
      rewrite Hm in Hin. exact Hin.
    + intros id Hid. discriminate.
Qed.

Section DeviceFacts.
Import Simctl.

Lemma first_named_spec (sim_name : string) (devs : list Device) :
  match first_named sim_name devs with
  | Some d =>
    exists before after, devs = before ++ d :: after /\
      d_name d = Some sim_name /\
      forall d', In d' before -> d_name d' <> Some sim_name
  | None => forall d', In d' devs -> d_name d' <> Some sim_name
  end.
Proof.
  induction devs as [|d rest IH]; cbn [first_named]; [intros d' []|].
  case_bool_decide as Hd.
  - exists [], rest. repeat split; [exact Hd | intros d' []].
  - destruct (first_named sim_name rest) as [d0|].
    + destruct IH as (before & after & -> & Hname & Hbefore).
      exists (d :: before), after. repeat split; [exact Hname|].
      intros d' [<-|Hin]; [exact Hd | exact (Hbefore d' Hin)].
    + intros d' [<-|Hin]; [exact Hd | exact (IH d' Hin)].
Qed.
End DeviceFacts.

(** X21: when the listing holds a device with the wanted name,
    [find_or_create_device] returns the [udid] entry of the first such
    device in listing order and never runs [simctl create]; when it
    holds none, a returned identifier is the non-empty stripped output
    of a [simctl create] that exited with code 0. *)
Theorem find_or_create_device_reuses_named_device
    (strip : string -> string)
    (devices : list (string * list Simctl.Device))
    (rt_id : option string)
    (create : string -> string -> Z * string) (sim_name : string) :
  let out := Simctl.find_or_create_device strip devices rt_id create sim_name in
  (forall d, In d (flat_map snd devices) ->
             Simctl.d_name d = Some sim_name ->
     snd out = false /\
     exists before first after,
       flat_map snd devices = before ++ first :: after /\
       Simctl.d_name first = Some sim_name /\
       (forall d', In d' before -> Simctl.d_name d' <> Some sim_name) /\
       fst out = Simctl.d_udid first) /\
  ((forall d, In d (flat_map snd devices) ->
              Simctl.d_name d <> Some sim_name) ->
   forall udid, fst out = Some udid ->
     exists id, rt_id = Some id /\ id <> EmptyString /\
       fst (create sim_name id) = 0 /\
       udid = strip (snd (create sim_name id)) /\
       udid <> EmptyString /\ snd out = true).
Proof.
  cbv zeta. unfold Simctl.find_or_create_device.
  pose proof (first_named_spec sim_name (flat_map snd devices)) as Hspec.
  destruct (Simctl.first_named sim_name (flat_map snd devices)) as [d0|].
  - destruct Hspec as (before & after & Heq & Hname & Hbefore). split.
    + intros d Hin Hd. split; [reflexivity|].
      exists before, d0, after. repeat split; assumption.
    + intros Hnone. exfalso. apply (Hnone d0); [|exact Hname].
      rewrite Heq. apply in_or_app. right. left. reflexivity.
  - split.
    + intros d Hin Hd. exfalso. exact (Hspec d Hin Hd).
    + intros _ udid. destruct rt_id as [id|]; [|discriminate].
      destruct (str_truthy id) eqn:Hid; cbn [negb]; [|discriminate].
      destruct (create sim_name id) as [returncode stdout] eqn:Hc.
      destruct (returncode =? 0) eqn:Hrc; cbn [negb orb]; [|discriminate].
      destruct (str_truthy (strip stdout)) eqn:Hout; cbn [negb];
        [|discriminate].
      cbn [fst snd]. intros [= <-]. exists id.
      apply Z.eqb_eq in Hrc. rewrite Hc. cbn [fst snd].
      split; [reflexivity|]. split; [intros ->; discriminate|].
      split; [exact Hrc|]. split; [reflexivity|].
      split; [|reflexivity].
      intros Hempty. rewrite Hempty in Hout. discriminate.
Qed.
